(** * spot_bezier_env: the Bezier-gait gym environment of SpotMicro

    A shallow embedding of [spotBezierEnv.step] and [spotBezierEnv._reward]
    (bullet/src/spotmicro/GymEnvs/spot_bezier_env.py) and the properties of the
    reward that follow from the code.

    Number model.  Python floats and numpy scalars are read as real numbers
    ([R]): no rounding, no overflow, no underflow, no NaN.  The one place where
    the code looks at the representation of a float is [math.copysign], which
    reads the sign bit of its second argument; a real [0] stands for the float
    [0.0] (sign bit clear), as for the Python integer [0].

    Some properties of the reward do depend on what the reals leave out: the
    result of [np.exp] is a binary64 value, so it underflows to 0 and reaches
    1 away from the peak, and a weight can be infinite.  For these, [F64]
    models the rounding of a result to binary64 and the infinite and nan
    values, and [_reward_locals_f64] and [_reward_f64] are the reward on
    them. *)

From Stdlib Require Import ZArith Reals Lra Lia RNsatz List.
Import ListNotations.

Open Scope R_scope.

(** ** The error monad of the embedding

    A Python exception ([IndexError] of a subscript, [ValueError] of a shape
    mismatch in [np.dot]) is [None]. *)

Definition bind {A B : Type} (c : option A) (k : A -> option B) : option B :=
  match c with
  | Some a => k a
  | None => None
  end.

Notation "x <- c ;; k" := (bind c (fun x => k))
  (at level 61, c at next level, right associativity).

(** ** The parts of the standard library and of numpy the file calls *)

Module math.

(** [math.copysign(x, y)]: the magnitude of [x] with the sign of [y]. *)
Definition copysign (x y : R) : R :=
  if Rlt_dec y 0 then - Rabs x else Rabs x.

End math.

Module np.

(** [np.dot(u, v)] of two one-dimensional arrays; the lengths must agree. *)
Fixpoint dot (u v : list R) : option R :=
  match u, v with
  | [], [] => Some 0
  | x :: u', y :: v' => s <- dot u' v' ;; Some (x * y + s)
  | _, _ => None
  end.

(** [np.dot(M, v)] of a two-dimensional array and a one-dimensional one:
    every row of [M] against [v]. *)
Fixpoint matvec (M : list (list R)) (v : list R) : option (list R) :=
  match M with
  | [] => Some []
  | row :: M' => x <- dot row v ;; xs <- matvec M' v ;; Some (x :: xs)
  end.

(** [np.concatenate((u, v))]. *)
Definition concatenate (u v : list R) : list R := u ++ v.

(** The subscript [a[i]] of a one-dimensional array, for [i >= 0]. *)
Definition item (a : list R) (i : nat) : option R := nth_error a i.

End np.

(** ** spotmicro.Kinematics.LieAlgebra

    The module is imported as [LA]; it is not part of the file.  Matrices are
    lists of rows. *)

Module LA.

Definition matrix := list (list R).

Definition row_dot (u v : list R) : R :=
  fold_right Rplus 0 (map (fun xy => fst xy * snd xy) (combine u v)).

Definition column (M : matrix) (j : nat) : list R :=
  map (fun row => nth j row 0) M.

Definition transpose3 (M : matrix) : matrix :=
  [column M 0; column M 1; column M 2].

Definition matvec (M : matrix) (v : list R) : list R :=
  map (fun row => row_dot row v) M.

Definition matmul (A B : matrix) (ncols : nat) : matrix :=
  map (fun row => map (fun j => row_dot row (column B j)) (seq 0 ncols)) A.

(** Modelled from the spec: [LA.RPY], absent from the sources.  The 4x4
    homogeneous transform of the rotation given by roll, pitch and yaw (the
    spec's "rotation matrix derived from roll/pitch/yaw Euler angles"), the
    product of the three elementary rotations. *)
Definition RPY (roll pitch yaw : R) : matrix :=
  let Roll := [[1; 0; 0; 0];
               [0; cos roll; - sin roll; 0];
               [0; sin roll; cos roll; 0];
               [0; 0; 0; 1]] in
  let Pitch := [[cos pitch; 0; sin pitch; 0];
                [0; 1; 0; 0];
                [- sin pitch; 0; cos pitch; 0];
                [0; 0; 0; 1]] in
  let Yaw := [[cos yaw; - sin yaw; 0; 0];
              [sin yaw; cos yaw; 0; 0];
              [0; 0; 1; 0];
              [0; 0; 0; 1]] in
  matmul (matmul Roll Pitch 4) Yaw 4.

(** Modelled from the spec: [LA.TransToRp], absent from the sources.  The
    rotation block and the translation column of a homogeneous transform. *)
Definition TransToRp (T : matrix) : matrix * list R :=
  (map (firstn 3) (firstn 3 T), column (firstn 3 T) 3).

(** Modelled from the spec: [LA.RpToTrans], absent from the sources.  The
    homogeneous transform "built from a rotation matrix and a translation". *)
Definition RpToTrans (Rm : matrix) (p : list R) : matrix :=
  map (fun rp => fst rp ++ [snd rp]) (combine Rm p) ++ [[0; 0; 0; 1]].

(** Modelled from the spec: [LA.TransInv], absent from the sources.  The
    inverse of a rigid transform, from the transpose of its (orthonormal)
    rotation block. *)
Definition TransInv (T : matrix) : matrix :=
  let (Rm, p) := TransToRp T in
  let Rt := transpose3 Rm in
  RpToTrans Rt (map Ropp (matvec Rt p)).

Definition identity4 : matrix :=
  [[1; 0; 0; 0]; [0; 1; 0; 0]; [0; 0; 1; 0]; [0; 0; 0; 1]].

(** Modelled from the spec: [LA.VecToso3], absent from the sources.  The
    skew-symmetric matrix of a 3-vector, which the adjoint is built from. *)
Definition VecToso3 (omg : list R) : matrix :=
  let x := nth 0 omg 0 in
  let y := nth 1 omg 0 in
  let z := nth 2 omg 0 in
  [[0; - z; y]; [z; 0; - x]; [- y; x; 0]].

(** Modelled from the spec: [LA.Adjoint], absent from the sources.  The 6x6
    adjoint of a homogeneous transform, acting on twists written angular part
    first, linear part second. *)
Definition Adjoint (T : matrix) : matrix :=
  let (Rm, p) := TransToRp T in
  let pR := matmul (VecToso3 p) Rm 3 in
  map (fun row => row ++ [0; 0; 0]) Rm
  ++ map (fun rr => fst rr ++ snd rr) (combine pR Rm).

End LA.

(** ** binary64

    What the real numbers leave out of Python's floats, for the two places of
    the reward where it shows: the result of [np.exp] is rounded to the
    nearest binary64 value, and a weight can be infinite or nan.  Arithmetic
    on finite values is exact here, and overflow is left out of [round]: the
    values it is used on are at most 1. *)

Module F64.

(** The exponent of the unit in the last place of the binary64 values around
    [y]: 53-bit significands from [2^-1022] on, the fixed spacing [2^-1074]
    of the subnormal values below. *)
Definition ulp_exponent (y : R) : Z :=
  if Rlt_dec (Rabs y) (powerRZ 2 (-1022)) then (-1074)%Z
  else (Zfloor (ln (Rabs y) / ln 2) - 52)%Z.

(** The integer nearest to [x], the even one of the two on a tie. *)
Definition nearest_even (x : R) : Z :=
  let n := Zfloor x in
  if Rlt_dec (x - IZR n) (1 / 2) then n
  else if Rlt_dec (1 / 2) (x - IZR n) then (n + 1)%Z
  else if Z.even n then n else (n + 1)%Z.

(** Rounding to nearest, ties to even. *)
Definition round (y : R) : R :=
  let e := ulp_exponent y in
  IZR (nearest_even (y * powerRZ 2 (- e))) * powerRZ 2 e.

(** [np.exp] on a binary64 argument: the exponential, rounded. *)
Definition np_exp (x : R) : R := round (exp x).

(** A binary64 value: finite, infinite of either sign, or nan. *)
Inductive value : Type :=
| Finite (x : R)
| Infinite (negative : bool)
| NaN.

(** The product: nan for zero times infinity. *)
Definition mul (a b : value) : value :=
  match a, b with
  | NaN, _ | _, NaN => NaN
  | Finite x, Finite y => Finite (x * y)
  | Finite x, Infinite s | Infinite s, Finite x =>
      if Req_EM_T x 0 then NaN
      else Infinite (xorb s (if Rlt_dec x 0 then true else false))
  | Infinite s, Infinite t => Infinite (xorb s t)
  end.

(** The sum: nan for infinities of opposite signs. *)
Definition add (a b : value) : value :=
  match a, b with
  | NaN, _ | _, NaN => NaN
  | Finite x, Finite y => Finite (x + y)
  | Finite _, Infinite s | Infinite s, Finite _ => Infinite s
  | Infinite s, Infinite t => if Bool.eqb s t then Infinite s else NaN
  end.

End F64.

Declare Scope f64_scope.
Delimit Scope f64_scope with f64.
Infix "*" := F64.mul : f64_scope.
Infix "+" := F64.add : f64_scope.

(** ** The state the environment works on *)

Definition vec3 : Type := R * R * R.
Definition quat : Type := R * R * R * R.

Definition vec3_list (v : vec3) : list R :=
  let '(x, y, z) := v in [x; y; z].

(** The robot ([self.spot]) as the environment reads it: base pose, the twists
    of the previous step (three components each), and the motor arrays. *)
Record Spot : Type := {
  GetBasePosition : vec3;
  GetBaseOrientation : quat;
  prev_ang_twist : vec3;
  prev_lin_twist : vec3;
  GetMotorTorques : list R;
  GetMotorVelocities : list R
}.

(** The gait source ([smach]): of the eight values of
    [return_bezier_params()] the reward keeps these four. *)
Record BezierStepper : Type := {
  StepLength : R;
  LateralFraction : R;
  YawRate : R;
  StepVelocity : R
}.

(** The attributes of the environment instance the two methods touch. *)
Record Env : Type := {
  _distance_weight : R;
  _rotation_weight : R;
  _energy_weight : R;
  _shake_weight : R;
  _drift_weight : R;
  _rp_weight : R;
  _rate_weight : R;
  _time_step : R;
  control_time_step : R;
  _is_render : bool;
  _last_frame_time : R;
  _last_base_position : vec3;
  _last_base_orientation : quat;
  _env_step_counter : nat;
  draw_foot_path : bool;
  _objectives : list (list R);
  spot : Spot
}.

Definition set_objectives (self : Env) (o : list (list R)) : Env :=
  {| _distance_weight := _distance_weight self;
     _rotation_weight := _rotation_weight self;
     _energy_weight := _energy_weight self;
     _shake_weight := _shake_weight self;
     _drift_weight := _drift_weight self;
     _rp_weight := _rp_weight self;
     _rate_weight := _rate_weight self;
     _time_step := _time_step self;
     control_time_step := control_time_step self;
     _is_render := _is_render self;
     _last_frame_time := _last_frame_time self;
     _last_base_position := _last_base_position self;
     _last_base_orientation := _last_base_orientation self;
     _env_step_counter := _env_step_counter self;
     draw_foot_path := draw_foot_path self;
     _objectives := o;
     spot := spot self |}.

Definition set_last_base (self : Env) (p : vec3) (q : quat) : Env :=
  {| _distance_weight := _distance_weight self;
     _rotation_weight := _rotation_weight self;
     _energy_weight := _energy_weight self;
     _shake_weight := _shake_weight self;
     _drift_weight := _drift_weight self;
     _rp_weight := _rp_weight self;
     _rate_weight := _rate_weight self;
     _time_step := _time_step self;
     control_time_step := control_time_step self;
     _is_render := _is_render self;
     _last_frame_time := _last_frame_time self;
     _last_base_position := p;
     _last_base_orientation := q;
     _env_step_counter := _env_step_counter self;
     draw_foot_path := draw_foot_path self;
     _objectives := _objectives self;
     spot := spot self |}.

Definition set_last_frame_time (self : Env) (t : R) : Env :=
  {| _distance_weight := _distance_weight self;
     _rotation_weight := _rotation_weight self;
     _energy_weight := _energy_weight self;
     _shake_weight := _shake_weight self;
     _drift_weight := _drift_weight self;
     _rp_weight := _rp_weight self;
     _rate_weight := _rate_weight self;
     _time_step := _time_step self;
     control_time_step := control_time_step self;
     _is_render := _is_render self;
     _last_frame_time := t;
     _last_base_position := _last_base_position self;
     _last_base_orientation := _last_base_orientation self;
     _env_step_counter := _env_step_counter self;
     draw_foot_path := draw_foot_path self;
     _objectives := _objectives self;
     spot := spot self |}.

Definition set_env_step_counter (self : Env) (n : nat) : Env :=
  {| _distance_weight := _distance_weight self;
     _rotation_weight := _rotation_weight self;
     _energy_weight := _energy_weight self;
     _shake_weight := _shake_weight self;
     _drift_weight := _drift_weight self;
     _rp_weight := _rp_weight self;
     _rate_weight := _rate_weight self;
     _time_step := _time_step self;
     control_time_step := control_time_step self;
     _is_render := _is_render self;
     _last_frame_time := _last_frame_time self;
     _last_base_position := _last_base_position self;
     _last_base_orientation := _last_base_orientation self;
     _env_step_counter := n;
     draw_foot_path := draw_foot_path self;
     _objectives := _objectives self;
     spot := spot self |}.

Definition set_spot (self : Env) (s : Spot) : Env :=
  {| _distance_weight := _distance_weight self;
     _rotation_weight := _rotation_weight self;
     _energy_weight := _energy_weight self;
     _shake_weight := _shake_weight self;
     _drift_weight := _drift_weight self;
     _rp_weight := _rp_weight self;
     _rate_weight := _rate_weight self;
     _time_step := _time_step self;
     control_time_step := control_time_step self;
     _is_render := _is_render self;
     _last_frame_time := _last_frame_time self;
     _last_base_position := _last_base_position self;
     _last_base_orientation := _last_base_orientation self;
     _env_step_counter := _env_step_counter self;
     draw_foot_path := draw_foot_path self;
     _objectives := _objectives self;
     spot := s |}.

(** The seven weights given to [__init__], as binary64 values. *)
Record Weights : Type := {
  distance_weight : F64.value;
  rotation_weight : F64.value;
  energy_weight : F64.value;
  shake_weight : F64.value;
  drift_weight : F64.value;
  rp_weight : F64.value;
  rate_weight : F64.value
}.

(** The same weights but for those of the shake and of the drift penalty. *)
Definition set_shake_drift (w : Weights) (shake drift : F64.value)
  : Weights :=
  {| distance_weight := distance_weight w;
     rotation_weight := rotation_weight w;
     energy_weight := energy_weight w;
     shake_weight := shake;
     drift_weight := drift;
     rp_weight := rp_weight w;
     rate_weight := rate_weight w |}.

(** The values of the local variables of [_reward] when it reaches its last
    statement.  [forward_reward] is assigned twice: [forward_tracking] is its
    first value (the forward term alone), [forward_reward] its value after
    [forward_reward += lateral_reward]. *)
Record Locals : Type := {
  DesiredVelicty : R;
  Vb : list R;
  obs : list R;
  fwd_speed : R;
  lat_speed : R;
  forward_tracking : R;
  lateral_reward : R;
  forward_reward : R;
  yaw_rate : R;
  rot_reward : R;
  rp_reward : R;
  shake_reward : R;
  rate_reward : R;
  drift_reward : R;
  energy_reward : R
}.

(** What [step] does to the world outside the instance, in order. *)
Inductive Effect : Type :=
| Sleep (seconds : R)
| ResetDebugVisualizerCamera (dist yaw pitch : R) (target : vec3).

(** ** Sample collaborators and inputs, for the concrete runs below *)

(** An Euler conversion, right for attitudes less than a quarter turn from
    level; quaternions are [(x, y, z, w)]. *)
Definition sample_euler (q : quat) : vec3 :=
  let '(x, y, z, w) := q in
  (atan (2 * (w * x + y * z) / (1 - 2 * (x * x + y * y))),
   asin (2 * (w * y - z * x)),
   atan (2 * (w * z + x * y) / (1 - 2 * (y * y + z * z)))).

(** An observation of five entries: roll, pitch and the three angular
    rates. *)
Definition sample_observation (s : Spot) : list R :=
  let '(roll, pitch, _) := sample_euler (GetBaseOrientation s) in
  let '(wx, wy, wz) := prev_ang_twist s in
  [roll; pitch; wx; wy; wz].

(** The twelve values of the debug camera; yaw, pitch and distance are at
    positions 8, 9 and 10. *)
Definition sample_camera (self : Env) : list R :=
  [1024; 768; 0; 0; 0; 0; 0; 0; 50; -35; 1; 0].

(** A robot on a rack: commands pass through unchanged and move nothing, the
    episode never ends, nothing is drawn. *)
Definition sample_transform (self : Env) (action : list R) : list R := action.
Definition sample_Step (s : Spot) (motor_commands : list R) : Spot := s.
Definition sample_termination (self : Env) : bool := false.
Definition sample_DrawFootPath (self : Env) : Env := self.

(** A robot level at the origin, with the given twists and motor arrays. *)
Definition level_spot (ang lin : vec3) (torques velocities : list R) : Spot :=
  {| GetBasePosition := (0, 0, 0);
     GetBaseOrientation := (0, 0, 0, 1);
     prev_ang_twist := ang;
     prev_lin_twist := lin;
     GetMotorTorques := torques;
     GetMotorVelocities := velocities |}.

(** Twelve idle motors; one unit forward in the previous step. *)
Definition walking_spot : Spot :=
  level_spot (0, 0, 0) (-1, 0, 0) (repeat 0 12%nat) (repeat 0 12%nat).

(** Twelve idle motors; no motion. *)
Definition resting_spot : Spot :=
  level_spot (0, 0, 0) (0, 0, 0) (repeat 0 12%nat) (repeat 0 12%nat).

(** Twelve idle motors; the body turning about its two horizontal axes. *)
Definition rocking_spot : Spot :=
  level_spot (0.5, 0.25, 0) (0, 0, 0) (repeat 0 12%nat) (repeat 0 12%nat).


(** Twelve torque readings against eleven velocity readings. *)
Definition jammed_spot : Spot :=
  level_spot (0, 0, 0) (0, 0, 0) (repeat 0 12%nat) (repeat 0 11%nat).

(** An instance with the default weights of [__init__], rendering on. *)
Definition default_env (s : Spot) : Env :=
  {| _distance_weight := 1.0;
     _rotation_weight := 1.0;
     _energy_weight := 0.0005;
     _shake_weight := 0.005;
     _drift_weight := 2.0;
     _rp_weight := 0.1;
     _rate_weight := 0.1;
     _time_step := 0.01;
     control_time_step := 0.01;
     _is_render := true;
     _last_frame_time := 0;
     _last_base_position := (0, 0, 0);
     _last_base_orientation := (0, 0, 0, 1);
     _env_step_counter := 0;
     draw_foot_path := false;
     _objectives := [];
     spot := s |}.

(** The default instance after one and after two late frames of the
    forward walk, the clock read at 0.02 and then at 0.04. *)
Definition after_one_step : Env :=
  set_env_step_counter
    (set_objectives
       (set_last_frame_time
          (set_last_base (default_env walking_spot) (0, 0, 0) (0, 0, 0, 1))
          0.02)
       [[2; 0; 0; 0]]) 1.

Definition after_two_steps : Env :=
  set_env_step_counter
    (set_objectives
       (set_last_frame_time after_one_step 0.04)
       [[2; 0; 0; 0]; [2; 0; 0; 0]]) 2.

(** The default weights of [__init__]. *)
Definition default_weights : Weights :=
  {| distance_weight := F64.Finite 1.0;
     rotation_weight := F64.Finite 1.0;
     energy_weight := F64.Finite 0.0005;
     shake_weight := F64.Finite 0.005;
     drift_weight := F64.Finite 2.0;
     rp_weight := F64.Finite 0.1;
     rate_weight := F64.Finite 0.1 |}.



Definition forward_gait : BezierStepper :=
  {| StepLength := 1; LateralFraction := 0; YawRate := 0;
     StepVelocity := 4 |}.


Section spotBezierEnv.

(** Collaborators defined outside the file: pybullet's Euler conversion and
    debug camera, and the methods inherited from [spotGymEnv] and [spot].
    [_get_observation] returns what the robot reports
    ([self.spot.GetObservation()]). *)
Variable getEulerFromQuaternion : quat -> vec3.
Variable getDebugVisualizerCamera : Env -> list R.
Variable _get_observation : Spot -> list R.
Variable _transform_action_to_motor_command : Env -> list R -> list R.
Variable spot_Step : Spot -> list R -> Spot.
Variable _termination : Env -> bool.
Variable DrawFootPath : Env -> Env.

(** [_reward], lines 177-246: everything up to the weighted sum. *)
Definition _reward_locals (self : Env) (smach : BezierStepper)
  : option Locals :=
  let DesiredVelicty :=
    math.copysign (StepVelocity smach / 4) (StepLength smach) in
  let pos := GetBasePosition (spot self) in
  let orn := GetBaseOrientation (spot self) in
  let '(roll, pitch, yaw) := getEulerFromQuaternion orn in
  let rpy := LA.RPY roll pitch yaw in
  let Rm := fst (LA.TransToRp rpy) in
  let T_wb := LA.RpToTrans Rm (vec3_list pos) in
  let T_bw := LA.TransInv T_wb in
  let Adj_Tbw := LA.Adjoint T_bw in
  let Vw := np.concatenate (vec3_list (prev_ang_twist (spot self)))
                           (vec3_list (prev_lin_twist (spot self))) in
  Vb <- np.matvec Adj_Tbw Vw ;;
  let obs := _get_observation (spot self) in
  Vb3 <- np.item Vb 3 ;;
  let fwd_speed := - Vb3 in
  Vb4 <- np.item Vb 4 ;;
  let lat_speed := - Vb4 in
  let reward_max := 1 in
  let forward_tracking :=
    reward_max *
    exp (- (fwd_speed - DesiredVelicty * cos (LateralFraction smach)) ^ 2
         / 0.1) in
  let lateral_reward :=
    reward_max *
    exp (- (lat_speed - DesiredVelicty * sin (LateralFraction smach)) ^ 2
         / 0.1) in
  let forward_reward := forward_tracking + lateral_reward in
  yaw_rate <- np.item obs 4 ;;
  let rot_reward :=
    reward_max * exp (- (yaw_rate - YawRate smach) ^ 2 / 0.1) in
  obs0 <- np.item obs 0 ;;
  obs1 <- np.item obs 1 ;;
  let rp_reward := - (Rabs obs0 + Rabs obs1) in
  let shake_reward := 0 in
  obs2 <- np.item obs 2 ;;
  obs3 <- np.item obs 3 ;;
  let rate_reward := - (Rabs obs2 + Rabs obs3) in
  let drift_reward := 0 in
  power <- np.dot (GetMotorTorques (spot self))
                  (GetMotorVelocities (spot self)) ;;
  let energy_reward := - Rabs power * _time_step self in
  Some {| DesiredVelicty := DesiredVelicty;
          Vb := Vb;
          obs := obs;
          fwd_speed := fwd_speed;
          lat_speed := lat_speed;
          forward_tracking := forward_tracking;
          lateral_reward := lateral_reward;
          forward_reward := forward_reward;
          yaw_rate := yaw_rate;
          rot_reward := rot_reward;
          rp_reward := rp_reward;
          shake_reward := shake_reward;
          rate_reward := rate_reward;
          drift_reward := drift_reward;
          energy_reward := energy_reward |}.

(** Lines 184-196 of [_reward] on their own: the twist of the previous step
    taken from the world frame to the body frame. *)
Definition body_twist (self : Env) : option (list R) :=
  let pos := GetBasePosition (spot self) in
  let orn := GetBaseOrientation (spot self) in
  let '(roll, pitch, yaw) := getEulerFromQuaternion orn in
  let rpy := LA.RPY roll pitch yaw in
  let Rm := fst (LA.TransToRp rpy) in
  let T_wb := LA.RpToTrans Rm (vec3_list pos) in
  let T_bw := LA.TransInv T_wb in
  let Adj_Tbw := LA.Adjoint T_bw in
  let Vw := np.concatenate (vec3_list (prev_ang_twist (spot self)))
                           (vec3_list (prev_lin_twist (spot self))) in
  np.matvec Adj_Tbw Vw.

(** [_reward], lines 247-257: the weighted sum, the entry appended to
    [self._objectives], the value returned. *)
Definition _reward (self : Env) (smach : BezierStepper) : option (R * Env) :=
  l <- _reward_locals self smach ;;
  let reward :=
    _distance_weight self * forward_reward l +
    _rotation_weight self * rot_reward l +
    _energy_weight self * energy_reward l +
    _drift_weight self * drift_reward l +
    _shake_weight self * shake_reward l +
    _rp_weight self * rp_reward l +
    _rate_weight self * rate_reward l in
  let self :=
    set_objectives self
      (_objectives self ++
       [[forward_reward l; energy_reward l; drift_reward l; shake_reward l]])
  in
  Some (reward, self).

(** The block of [step] under [if self._is_render:], lines 148-161.  [now1]
    and [now2] are what the two calls of [time.time()] return.  The effects
    come out also when the camera tuple cannot be unpacked. *)
Definition render_pacing (self : Env) (now1 now2 : R)
  : list Effect * option Env :=
  let time_spent := now1 - _last_frame_time self in
  let self := set_last_frame_time self now2 in
  let time_to_sleep := control_time_step self - time_spent in
  let slept :=
    if Rlt_dec 0 time_to_sleep then [Sleep time_to_sleep] else [] in
  let base_pos := GetBasePosition (spot self) in
  match firstn 3 (skipn 8 (getDebugVisualizerCamera self)) with
  | [yaw; pitch; dist] =>
      (slept ++ [ResetDebugVisualizerCamera dist yaw pitch base_pos],
       Some self)
  | _ => (slept, None)
  end.

(** [step(action, smach)]: the effects performed, and the returned
    (observation, reward, done) with the instance afterwards unless an
    exception ended the call.  The returned [info] is always the empty dict. *)
Definition step (self : Env) (action : list R) (smach : BezierStepper)
  (now1 now2 : R) : list Effect * option (list R * R * bool * Env) :=
  let self :=
    set_last_base self (GetBasePosition (spot self))
                       (GetBaseOrientation (spot self)) in
  let '(effects, paced) :=
    if _is_render self then render_pacing self now1 now2
    else ([], Some self) in
  (effects,
   self <- paced ;;
   let action := _transform_action_to_motor_command self action in
   let self := set_spot self (spot_Step (spot self) action) in
   rs <- _reward self smach ;;
   let '(reward, self) := rs in
   let done := _termination self in
   let self := set_env_step_counter self (S (_env_step_counter self)) in
   let self := if draw_foot_path self then DrawFootPath self else self in
   Some (_get_observation (spot self), reward, done, self)).


(** The inputs on which [_reward] raises nothing: an observation of at least
    five entries, and as many motor torques as motor velocities. *)
Definition well_formed (self : Env) : Prop :=
  (5 <= length (_get_observation (spot self)))%nat /\
  length (GetMotorTorques (spot self)) =
  length (GetMotorVelocities (spot self)).

(** [|o[i]| + |o[j]|] for an observation [o] that has both entries. *)
Definition abs_sum (o : list R) (i j : nat) : R :=
  Rabs (nth i o 0) + Rabs (nth j o 0).

(** ** The reward on binary64 values *)

(** [_reward], lines 177-246, with the results of [np.exp] and of the sum
    of the two tracking terms binary64 values.  The arithmetic that leads to
    the arguments of [np.exp] and to the penalties stays on the reals. *)
Definition _reward_locals_f64 (self : Env) (smach : BezierStepper)
  : option Locals :=
  let DesiredVelicty :=
    math.copysign (StepVelocity smach / 4) (StepLength smach) in
  let pos := GetBasePosition (spot self) in
  let orn := GetBaseOrientation (spot self) in
  let '(roll, pitch, yaw) := getEulerFromQuaternion orn in
  let rpy := LA.RPY roll pitch yaw in
  let Rm := fst (LA.TransToRp rpy) in
  let T_wb := LA.RpToTrans Rm (vec3_list pos) in
  let T_bw := LA.TransInv T_wb in
  let Adj_Tbw := LA.Adjoint T_bw in
  let Vw := np.concatenate (vec3_list (prev_ang_twist (spot self)))
                           (vec3_list (prev_lin_twist (spot self))) in
  Vb <- np.matvec Adj_Tbw Vw ;;
  let obs := _get_observation (spot self) in
  Vb3 <- np.item Vb 3 ;;
  let fwd_speed := - Vb3 in
  Vb4 <- np.item Vb 4 ;;
  let lat_speed := - Vb4 in
  let reward_max := 1 in
  let forward_tracking :=
    reward_max *
    F64.np_exp
      (- (fwd_speed - DesiredVelicty * cos (LateralFraction smach)) ^ 2
       / 0.1) in
  let lateral_reward :=
    reward_max *
    F64.np_exp
      (- (lat_speed - DesiredVelicty * sin (LateralFraction smach)) ^ 2
       / 0.1) in
  let forward_reward := F64.round (forward_tracking + lateral_reward) in
  yaw_rate <- np.item obs 4 ;;
  let rot_reward :=
    reward_max * F64.np_exp (- (yaw_rate - YawRate smach) ^ 2 / 0.1) in
  obs0 <- np.item obs 0 ;;
  obs1 <- np.item obs 1 ;;
  let rp_reward := - (Rabs obs0 + Rabs obs1) in
  let shake_reward := 0 in
  obs2 <- np.item obs 2 ;;
  obs3 <- np.item obs 3 ;;
  let rate_reward := - (Rabs obs2 + Rabs obs3) in
  let drift_reward := 0 in
  power <- np.dot (GetMotorTorques (spot self))
                  (GetMotorVelocities (spot self)) ;;
  let energy_reward := - Rabs power * _time_step self in
  Some {| DesiredVelicty := DesiredVelicty;
          Vb := Vb;
          obs := obs;
          fwd_speed := fwd_speed;
          lat_speed := lat_speed;
          forward_tracking := forward_tracking;
          lateral_reward := lateral_reward;
          forward_reward := forward_reward;
          yaw_rate := yaw_rate;
          rot_reward := rot_reward;
          rp_reward := rp_reward;
          shake_reward := shake_reward;
          rate_reward := rate_reward;
          drift_reward := drift_reward;
          energy_reward := energy_reward |}.

(** [_reward], lines 247-257, with the seven weights the binary64 values
    [w]: the weighted sum is nan or infinite when a weight makes it so. *)
Definition _reward_f64 (w : Weights) (self : Env) (smach : BezierStepper)
  : option (F64.value * Env) :=
  l <- _reward_locals_f64 self smach ;;
  let reward :=
    (distance_weight w * F64.Finite (forward_reward l) +
     rotation_weight w * F64.Finite (rot_reward l) +
     energy_weight w * F64.Finite (energy_reward l) +
     drift_weight w * F64.Finite (drift_reward l) +
     shake_weight w * F64.Finite (shake_reward l) +
     rp_weight w * F64.Finite (rp_reward l) +
     rate_weight w * F64.Finite (rate_reward l))%f64 in
  let self :=
    set_objectives self
      (_objectives self ++
       [[forward_reward l; energy_reward l; drift_reward l; shake_reward l]])
  in
  Some (reward, self).

(** The locals of the real-number reward with the three Gaussian terms and
    the sum of the two tracking terms rounded to binary64. *)
Definition rounded (l : Locals) : Locals :=
  {| DesiredVelicty := DesiredVelicty l;
     Vb := Vb l;
     obs := obs l;
     fwd_speed := fwd_speed l;
     lat_speed := lat_speed l;
     forward_tracking := F64.round (forward_tracking l);
     lateral_reward := F64.round (lateral_reward l);
     forward_reward :=
       F64.round
         (F64.round (forward_tracking l) + F64.round (lateral_reward l));
     yaw_rate := yaw_rate l;
     rot_reward := F64.round (rot_reward l);
     rp_reward := rp_reward l;
     shake_reward := shake_reward l;
     rate_reward := rate_reward l;
     drift_reward := drift_reward l;
     energy_reward := energy_reward l |}.

(** ** Auxiliary facts *)

Lemma gaussian_bounds (x : R) : 0 < exp (- x ^ 2 / 0.1) <= 1.
Proof.
  split; [apply exp_pos|].
  assert (Hx : - x ^ 2 / 0.1 <= 0).
  { pose proof (pow2_ge_0 x) as Hsq.
    replace (- x ^ 2 / 0.1) with (- (10 * x ^ 2)) by lra. lra. }
  destruct Hx as [Hlt | Heq].
  - left. apply Rlt_le_trans with (exp 0).
    + now apply exp_increasing.
    + rewrite exp_0. apply Rle_refl.
  - rewrite Heq, exp_0. apply Rle_refl.
Qed.

Lemma gaussian_peak (x : R) : x = 0 -> exp (- x ^ 2 / 0.1) = 1.
Proof.
  intros ->. replace (- 0 ^ 2 / 0.1) with 0 by lra. apply exp_0.
Qed.


Lemma copysign_positive (x y : R) : 0 < y -> math.copysign x y = Rabs x.
Proof.
  intros Hy. unfold math.copysign.
  destruct (Rlt_dec y 0) as [H | _]; [lra | reflexivity].
Qed.

Lemma Rabs_quarter (x : R) : Rabs (x / 4) = Rabs x / 4.
Proof.
  unfold Rdiv. rewrite Rabs_mult. f_equal. apply Rabs_right. lra.
Qed.



Lemma item_nth (a : list R) (i : nat) (x : R) :
  np.item a i = Some x -> nth i a 0 = x.
Proof. intros H. now apply nth_error_nth. Qed.

Lemma dot_defined (u v : list R) :
  length u = length v -> exists s, np.dot u v = Some s.
Proof.
  revert v; induction u as [|x u IH]; intros [|y v] Hlen;
    try discriminate Hlen.
  - exists 0; reflexivity.
  - injection Hlen as Hlen. destruct (IH v Hlen) as [s Hs].
    exists (x * y + s). cbn [np.dot]. rewrite Hs. reflexivity.
Qed.

Lemma dot_length (u v : list R) (s : R) :
  np.dot u v = Some s -> length u = length v.
Proof.
  revert v s; induction u as [|x u IH]; intros [|y v] s H;
    try discriminate H; [reflexivity|].
  cbn [np.dot] in H. destruct (np.dot u v) as [t|] eqn:E; [|discriminate H].
  cbn [length]. f_equal. exact (IH v t E).
Qed.

(** The modelled transforms obey the round-trip law the spec asks of them:
    the world-to-body transform [T_bw] composed with the body-to-world
    transform [T_wb] it was inverted from is the identity, for every roll,
    pitch, yaw and position. *)
Lemma TransInv_round_trip (roll pitch yaw p0 p1 p2 : R) :
  let T_wb := LA.RpToTrans (fst (LA.TransToRp (LA.RPY roll pitch yaw)))
                [p0; p1; p2] in
  LA.matmul (LA.TransInv T_wb) T_wb 4 = LA.identity4.
Proof.
  cbn.
  pose proof (sin2_cos2 roll) as Hr. pose proof (sin2_cos2 pitch) as Hp.
  pose proof (sin2_cos2 yaw) as Hy. unfold Rsqr in Hr, Hp, Hy.
  generalize dependent (cos roll). generalize dependent (sin roll).
  generalize dependent (cos pitch). generalize dependent (sin pitch).
  generalize dependent (cos yaw). generalize dependent (sin yaw).
  intros sy cy Hy sp cp Hp sr cr Hr.
  unfold LA.identity4.
  repeat (apply (f_equal2 (@cons (list R)));
          [repeat (apply (f_equal2 (@cons R)); [try ring; nsatz|]);
           reflexivity|]).
  reflexivity.
Qed.

(** The adjoint is a 6x6 matrix whatever the pose, so the product with the
    six-entry world twist is defined and has six entries. *)
Lemma Vb_defined (roll pitch yaw : R) (pos w v : vec3) :
  exists b0 b1 b2 b3 b4 b5,
    np.matvec
      (LA.Adjoint
         (LA.TransInv
            (LA.RpToTrans (fst (LA.TransToRp (LA.RPY roll pitch yaw)))
                          (vec3_list pos))))
      (np.concatenate (vec3_list w) (vec3_list v))
    = Some [b0; b1; b2; b3; b4; b5].
Proof.
  destruct pos as [[p0 p1] p2], w as [[w0 w1] w2], v as [[v0 v1] v2].
  cbn. do 6 eexists. reflexivity.
Qed.

Lemma five_entries (a : list R) :
  (5 <= length a)%nat ->
  exists o0 o1 o2 o3 o4 rest, a = o0 :: o1 :: o2 :: o3 :: o4 :: rest.
Proof.
  intros H.
  destruct a as [|o0 [|o1 [|o2 [|o3 [|o4 rest]]]]]; cbn in H;
    try (exfalso; repeat apply le_S_n in H; inversion H; fail).
  now exists o0, o1, o2, o3, o4, rest.
Qed.

(** Runs [_reward_locals] in a hypothesis [H : _reward_locals self smach =
    Some l]: one case per statement that can raise, the raising ones closed,
    and [l] replaced by the record of the values computed. *)
Ltac run_reward H :=
  unfold _reward_locals in H;
  destruct (getEulerFromQuaternion _) as [[?roll ?pitch] ?yaw];
  cbv zeta in H;
  repeat match type of H with
         | bind ?c _ = Some _ =>
             let E := fresh "E" in
             destruct c eqn:E;
             [unfold bind at 1 in H; cbv beta iota in H | discriminate H]
         end;
  injection H as <-.

Lemma reward_locals_defined (self : Env) (smach : BezierStepper) :
  well_formed self -> exists l, _reward_locals self smach = Some l.
Proof.
  intros [Hobs Hlen]. unfold _reward_locals.
  destruct (getEulerFromQuaternion _) as [[roll pitch] yaw]. cbv zeta.
  destruct (Vb_defined roll pitch yaw (GetBasePosition (spot self))
              (prev_ang_twist (spot self)) (prev_lin_twist (spot self)))
    as (b0 & b1 & b2 & b3 & b4 & b5 & HVb).
  rewrite HVb.
  destruct (five_entries _ Hobs) as (o0 & o1 & o2 & o3 & o4 & rest & Ho).
  rewrite Ho.
  destruct (dot_defined _ _ Hlen) as [p Hp]. rewrite Hp.
  cbn [bind np.item nth_error]. eexists. reflexivity.
Qed.

Lemma reward_locals_well_formed (self : Env) (smach : BezierStepper)
  (l : Locals) :
  _reward_locals self smach = Some l -> well_formed self.
Proof.
  intros H. run_reward H. split.
  - unfold np.item in *.
    match goal with
    | E : nth_error _ 4 = Some _ |- _ =>
        assert (Hn : nth_error (_get_observation (spot self)) 4 <> None)
          by (rewrite E; discriminate);
        apply nth_error_Some in Hn; exact Hn
    end.
  - eapply dot_length; eassumption.
Qed.

(** ** What each local variable of [_reward] holds *)

Section Locals.

Variables (self : Env) (smach : BezierStepper) (l : Locals).
Hypothesis Hrun : _reward_locals self smach = Some l.

Lemma locals_desired :
  DesiredVelicty l =
  math.copysign (StepVelocity smach / 4) (StepLength smach).
Proof. pose proof Hrun as H. run_reward H. reflexivity. Qed.

Lemma locals_body_twist : body_twist self = Some (Vb l).
Proof.
  pose proof Hrun as H. unfold body_twist. run_reward H.
  reflexivity.
Qed.

Lemma locals_speeds :
  np.item (Vb l) 3 = Some (- fwd_speed l) /\
  np.item (Vb l) 4 = Some (- lat_speed l).
Proof.
  pose proof Hrun as H. run_reward H.
  cbn [Vb fwd_speed lat_speed]. rewrite !Ropp_involutive. now split.
Qed.

Lemma locals_tracking :
  forward_tracking l =
    exp (- (fwd_speed l - DesiredVelicty l * cos (LateralFraction smach)) ^ 2
         / 0.1) /\
  lateral_reward l =
    exp (- (lat_speed l - DesiredVelicty l * sin (LateralFraction smach)) ^ 2
         / 0.1) /\
  forward_reward l = forward_tracking l + lateral_reward l.
Proof.
  pose proof Hrun as H. run_reward H.
  cbn [forward_tracking lateral_reward forward_reward fwd_speed lat_speed
       DesiredVelicty].
  rewrite !Rmult_1_l. repeat split.
Qed.

Lemma locals_obs : obs l = _get_observation (spot self).
Proof. pose proof Hrun as H. run_reward H. reflexivity. Qed.

Lemma locals_rot :
  np.item (obs l) 4 = Some (yaw_rate l) /\
  rot_reward l = exp (- (yaw_rate l - YawRate smach) ^ 2 / 0.1).
Proof.
  pose proof Hrun as H. run_reward H.
  cbn [obs yaw_rate rot_reward]. rewrite Rmult_1_l. now split.
Qed.

Lemma locals_rp :
  exists o0 o1,
    np.item (obs l) 0 = Some o0 /\ np.item (obs l) 1 = Some o1 /\
    rp_reward l = - (Rabs o0 + Rabs o1).
Proof.
  pose proof Hrun as H. run_reward H.
  cbn [obs rp_reward]. eauto.
Qed.

Lemma locals_rate :
  exists o2 o3,
    np.item (obs l) 2 = Some o2 /\ np.item (obs l) 3 = Some o3 /\
    rate_reward l = - (Rabs o2 + Rabs o3).
Proof.
  pose proof Hrun as H. run_reward H.
  cbn [obs rate_reward]. eauto.
Qed.

Lemma locals_fixed : shake_reward l = 0 /\ drift_reward l = 0.
Proof. pose proof Hrun as H. run_reward H. now split. Qed.

Lemma locals_energy :
  exists power,
    np.dot (GetMotorTorques (spot self)) (GetMotorVelocities (spot self))
    = Some power /\
    energy_reward l = - Rabs power * _time_step self.
Proof.
  pose proof Hrun as H. run_reward H.
  cbn [energy_reward]. eauto.
Qed.

End Locals.

(** [_reward] once its locals are known. *)
Lemma reward_of_locals (self : Env) (smach : BezierStepper) (l : Locals) :
  _reward_locals self smach = Some l ->
  _reward self smach =
  Some (_distance_weight self * forward_reward l +
        _rotation_weight self * rot_reward l +
        _energy_weight self * energy_reward l +
        _drift_weight self * drift_reward l +
        _shake_weight self * shake_reward l +
        _rp_weight self * rp_reward l +
        _rate_weight self * rate_reward l,
        set_objectives self
          (_objectives self ++
           [[forward_reward l; energy_reward l; drift_reward l;
             shake_reward l]])).
Proof. intros H. unfold _reward. rewrite H. reflexivity. Qed.

(** ** The reward *)


(** C3.  A call on well-formed inputs returns the sum of the seven terms, each
    multiplied by its weight; the first term is the forward and the lateral
    tracking rewards added together. *)
Theorem reward_is_weighted_sum (self : Env) (smach : BezierStepper) :
  well_formed self ->
  exists l self',
    _reward_locals self smach = Some l /\
    forward_reward l = forward_tracking l + lateral_reward l /\
    _reward self smach =
    Some (_distance_weight self * forward_reward l +
          _rotation_weight self * rot_reward l +
          _energy_weight self * energy_reward l +
          _drift_weight self * drift_reward l +
          _shake_weight self * shake_reward l +
          _rp_weight self * rp_reward l +
          _rate_weight self * rate_reward l,
          self').
Proof.
  intros Hwf.
  destruct (reward_locals_defined self smach Hwf) as [l Hl].
  exists l. eexists. split; [exact Hl|]. split.
  - apply (locals_tracking _ _ _ Hl).
  - apply reward_of_locals. exact Hl.
Qed.


(** C6.  A call on well-formed inputs leaves [self._objectives] one entry
    longer: the old entries, unchanged and in place, followed by the list of
    the combined forward and lateral reward, the energy penalty, the drift
    penalty and the shake penalty. *)
Theorem reward_appends_one_entry (self : Env) (smach : BezierStepper) :
  well_formed self ->
  exists l r self',
    _reward_locals self smach = Some l /\
    _reward self smach = Some (r, self') /\
    _objectives self' =
      _objectives self ++
      [[forward_tracking l + lateral_reward l; energy_reward l;
        drift_reward l; shake_reward l]] /\
    length (_objectives self') = S (length (_objectives self)) /\
    (forall i, (i < length (_objectives self))%nat ->
               nth_error (_objectives self') i
               = nth_error (_objectives self) i).
Proof.
  intros Hwf.
  destruct (reward_locals_defined self smach Hwf) as [l Hl].
  exists l. do 2 eexists. split; [exact Hl|].
  split; [apply reward_of_locals; exact Hl|].
  cbn [_objectives set_objectives].
  destruct (locals_tracking _ _ _ Hl) as (_ & _ & ->).
  split; [reflexivity|]. split.
  - rewrite length_app. cbn [length]. rewrite PeanoNat.Nat.add_1_r.
    reflexivity.
  - intros i Hi. now apply nth_error_app1.
Qed.

(** C7.  Of two evaluations, the one whose observation has the larger
    [|obs[0]| + |obs[1]|] has the smaller (or equal) attitude penalty, and the
    one with the larger [|obs[2]| + |obs[3]|] has the smaller (or equal)
    angular-rate penalty, whatever the other inputs are. *)
Theorem attitude_and_rate_penalties_monotone
  (self1 self2 : Env) (smach1 smach2 : BezierStepper) :
  well_formed self1 ->
  well_formed self2 ->
  exists l1 l2,
    _reward_locals self1 smach1 = Some l1 /\
    _reward_locals self2 smach2 = Some l2 /\
    (abs_sum (_get_observation (spot self1)) 0 1
     <= abs_sum (_get_observation (spot self2)) 0 1 ->
     rp_reward l2 <= rp_reward l1) /\
    (abs_sum (_get_observation (spot self1)) 2 3
     <= abs_sum (_get_observation (spot self2)) 2 3 ->
     rate_reward l2 <= rate_reward l1).
Proof.
  intros Hwf1 Hwf2. unfold abs_sum.
  destruct (reward_locals_defined self1 smach1 Hwf1) as [l1 Hl1].
  destruct (reward_locals_defined self2 smach2 Hwf2) as [l2 Hl2].
  exists l1, l2. split; [exact Hl1|]. split; [exact Hl2|].
  destruct (locals_rp _ _ _ Hl1) as (a0 & a1 & Ha0 & Ha1 & ->).
  destruct (locals_rp _ _ _ Hl2) as (b0 & b1 & Hb0 & Hb1 & ->).
  destruct (locals_rate _ _ _ Hl1) as (a2 & a3 & Ha2 & Ha3 & ->).
  destruct (locals_rate _ _ _ Hl2) as (b2 & b3 & Hb2 & Hb3 & ->).
  rewrite (locals_obs _ _ _ Hl1) in Ha0, Ha1, Ha2, Ha3.
  rewrite (locals_obs _ _ _ Hl2) in Hb0, Hb1, Hb2, Hb3.
  rewrite (item_nth _ _ _ Ha0), (item_nth _ _ _ Ha1), (item_nth _ _ _ Ha2),
    (item_nth _ _ _ Ha3), (item_nth _ _ _ Hb0), (item_nth _ _ _ Hb1),
    (item_nth _ _ _ Hb2), (item_nth _ _ _ Hb3).
  split; intros H; lra.
Qed.

(** C5.  When the twist in the body frame is zero, the forward and the
    lateral speeds are 0, each tracking reward is the Gaussian of its desired
    component alone, and it is 1 when that component is 0. *)
Theorem tracking_rewards_at_zero_body_twist
  (self : Env) (smach : BezierStepper) :
  well_formed self ->
  body_twist self = Some [0; 0; 0; 0; 0; 0] ->
  exists l,
    _reward_locals self smach = Some l /\
    fwd_speed l = 0 /\
    lat_speed l = 0 /\
    forward_tracking l =
      exp (- (DesiredVelicty l * cos (LateralFraction smach)) ^ 2 / 0.1)
    /\
    lateral_reward l =
      exp (- (DesiredVelicty l * sin (LateralFraction smach)) ^ 2 / 0.1)
    /\
    (DesiredVelicty l * cos (LateralFraction smach) = 0 ->
     forward_tracking l = 1) /\
    (DesiredVelicty l * sin (LateralFraction smach) = 0 ->
     lateral_reward l = 1).
Proof.
  intros Hwf Hzero.
  destruct (reward_locals_defined self smach Hwf) as [l Hl].
  exists l. split; [exact Hl|].
  pose proof (locals_body_twist _ _ _ Hl) as HVb.
  rewrite Hzero in HVb. injection HVb as HVb.
  destruct (locals_speeds _ _ _ Hl) as [H3 H4].
  rewrite <- HVb in H3, H4. cbn in H3, H4.
  injection H3 as H3. injection H4 as H4.
  assert (Hfwd : fwd_speed l = 0) by lra.
  assert (Hlat : lat_speed l = 0) by lra.
  destruct (locals_tracking _ _ _ Hl) as (Hf & Hl' & _).
  rewrite Hfwd in Hf. rewrite Hlat in Hl'.
  assert (Hfe : forall d, exp (- (0 - d) ^ 2 / 0.1)
                        = exp (- d ^ 2 / 0.1))
    by (intros d; f_equal; lra).
  rewrite Hfe in Hf, Hl'.
  repeat split; try assumption.
  - intros Hd. rewrite Hf. now apply gaussian_peak.
  - intros Hd. rewrite Hl'. now apply gaussian_peak.
Qed.

(** With a level attitude and no angular velocity the adjoint leaves the
    linear velocity as it is, wherever the base is. *)
Lemma body_twist_level (self : Env) (v0 v1 v2 : R) :
  getEulerFromQuaternion (GetBaseOrientation (spot self)) = (0, 0, 0) ->
  prev_ang_twist (spot self) = (0, 0, 0) ->
  prev_lin_twist (spot self) = (v0, v1, v2) ->
  body_twist self = Some [0; 0; 0; v0; v1; v2].
Proof.
  intros He Ha Hv. unfold body_twist. rewrite He, Ha, Hv.
  destruct (GetBasePosition (spot self)) as [[p0 p1] p2].
  cbn. rewrite cos_0, sin_0. apply f_equal.
  repeat (apply (f_equal2 (@cons R)); [ring|]). reflexivity.
Qed.

Lemma dot_zeros (n : nat) : np.dot (repeat 0 n) (repeat 0 n) = Some 0.
Proof.
  induction n as [|n IH]; [reflexivity|].
  cbn [repeat np.dot]. rewrite IH. cbn [bind]. f_equal. ring.
Qed.

Section ForwardWalk.

(** The end-to-end scenario: a level robot at the origin that moved one unit
    forward in the previous step (linear twist -1 along x), commanded to do
    just that, with a still observation and [n] idle motors. *)
Variables (self : Env) (n : nat).
Hypothesis He :
  getEulerFromQuaternion (GetBaseOrientation (spot self)) = (0, 0, 0).
Hypothesis Hpos : GetBasePosition (spot self) = (0, 0, 0).
Hypothesis Ha : prev_ang_twist (spot self) = (0, 0, 0).
Hypothesis Hv : prev_lin_twist (spot self) = (-1, 0, 0).
Hypothesis Hobs : _get_observation (spot self) = [0; 0; 0; 0; 0].
Hypothesis Htq : GetMotorTorques (spot self) = repeat 0 n.
Hypothesis Hvel : GetMotorVelocities (spot self) = repeat 0 n.

Let smach : BezierStepper :=
  {| StepLength := 1; LateralFraction := 0; YawRate := 0;
     StepVelocity := 4 |}.

Lemma forward_walk_locals :
  exists l,
    _reward_locals self smach = Some l /\
    DesiredVelicty l = 1 /\
    fwd_speed l = 1 /\
    lat_speed l = 0 /\
    forward_tracking l = 1 /\
    lateral_reward l = 1 /\
    forward_reward l = 2 /\
    rot_reward l = 1 /\
    rp_reward l = 0 /\
    rate_reward l = 0 /\
    shake_reward l = 0 /\
    drift_reward l = 0 /\
    energy_reward l = 0.
Proof.
  assert (Hwf : well_formed self).
  { split; [rewrite Hobs; apply le_n|].
    rewrite Htq, Hvel. reflexivity. }
  destruct (reward_locals_defined self smach Hwf) as [l Hl].
  exists l. split; [exact Hl|].
  (* the body-frame twist and the two speeds *)
  pose proof (locals_body_twist _ _ _ Hl) as HVb.
  rewrite (body_twist_level self _ _ _ He Ha Hv) in HVb.
  injection HVb as HVb.
  destruct (locals_speeds _ _ _ Hl) as [H3 H4].
  rewrite <- HVb in H3, H4. cbn in H3, H4.
  injection H3 as H3. injection H4 as H4.
  (* the desired speed *)
  pose proof (locals_desired _ _ _ Hl) as HD.
  cbn [smach StepVelocity StepLength] in HD.
  rewrite copysign_positive in HD by lra.
  rewrite Rabs_right in HD by lra.
  (* the tracking rewards *)
  destruct (locals_tracking _ _ _ Hl) as (Hf & Hlat & Hsum).
  cbn [smach LateralFraction] in Hf, Hlat.
  rewrite gaussian_peak in Hf by (rewrite HD, cos_0; lra).
  rewrite gaussian_peak in Hlat by (rewrite HD, sin_0; lra).
  (* the observation terms *)
  pose proof (locals_obs _ _ _ Hl) as Ho. rewrite Hobs in Ho.
  destruct (locals_rot _ _ _ Hl) as (Hy & Hrot).
  destruct (locals_rp _ _ _ Hl) as (o0 & o1 & Ho0 & Ho1 & Hrp).
  destruct (locals_rate _ _ _ Hl) as (o2 & o3 & Ho2 & Ho3 & Hrate).
  rewrite Ho in Hy, Ho0, Ho1, Ho2, Ho3. cbn in Hy, Ho0, Ho1, Ho2, Ho3.
  injection Hy as Hy. injection Ho0 as <-. injection Ho1 as <-.
  injection Ho2 as <-. injection Ho3 as <-.
  cbn [smach YawRate] in Hrot.
  rewrite gaussian_peak in Hrot by lra.
  rewrite Rabs_R0 in Hrp, Hrate.
  (* the fixed terms and the energy *)
  destruct (locals_fixed _ _ _ Hl) as [Hs Hd].
  destruct (locals_energy _ _ _ Hl) as (power & Hdot & Hen).
  rewrite Htq, Hvel, dot_zeros in Hdot. injection Hdot as <-.
  rewrite Rabs_R0 in Hen.
  repeat split; try assumption; lra.
Qed.

Lemma forward_walk_reward :
  _distance_weight self = 1 ->
  _rotation_weight self = 1 ->
  _reward self smach
  = Some (3, set_objectives self (_objectives self ++ [[2; 0; 0; 0]])).
Proof.
  intros Hdw Hrw.
  destruct forward_walk_locals
    as (l & Hl & _ & _ & _ & _ & _ & Hsum & Hrot & Hrp & Hrate & Hs & Hd
        & Hen).
  rewrite (reward_of_locals _ _ _ Hl).
  rewrite Hsum, Hrot, Hrp, Hrate, Hs, Hd, Hen, Hdw, Hrw.
  apply f_equal. apply (f_equal2 pair); [ring | reflexivity].
Qed.

End ForwardWalk.

(** C2.  In the scenario of a level robot at the origin that moved one unit
    forward in the previous step, commanded to do just that, with a still
    observation, idle motors and distance and rotation weights 1: the desired
    speed is 1, both tracking rewards are 1 and add up to 2, the yaw-rate
    reward is 1, every penalty is 0, the reward returned is 3 and the entry
    logged is [2, 0, 0, 0]. *)
Theorem forward_walk_scenario (self : Env) (n : nat) :
  getEulerFromQuaternion (GetBaseOrientation (spot self)) = (0, 0, 0) ->
  GetBasePosition (spot self) = (0, 0, 0) ->
  prev_ang_twist (spot self) = (0, 0, 0) ->
  prev_lin_twist (spot self) = (-1, 0, 0) ->
  _get_observation (spot self) = [0; 0; 0; 0; 0] ->
  GetMotorTorques (spot self) = repeat 0 n ->
  GetMotorVelocities (spot self) = repeat 0 n ->
  _distance_weight self = 1 ->
  _rotation_weight self = 1 ->
  let smach := {| StepLength := 1; LateralFraction := 0;
                  YawRate := 0; StepVelocity := 4 |} in
  _reward self smach
  = Some (3, set_objectives self (_objectives self ++ [[2; 0; 0; 0]])) /\
  exists l,
    _reward_locals self smach = Some l /\
    DesiredVelicty l = 1 /\
    forward_tracking l = 1 /\
    lateral_reward l = 1 /\
    forward_reward l = 2 /\
    rot_reward l = 1 /\
    rp_reward l = 0 /\
    rate_reward l = 0 /\
    shake_reward l = 0 /\
    drift_reward l = 0 /\
    energy_reward l = 0.
Proof.
  intros He Hpos Ha Hv Hobs Htq Hvel Hdw Hrw smach. split.
  - exact (forward_walk_reward self n He Ha Hv Hobs Htq Hvel Hdw Hrw).
  - destruct (forward_walk_locals self n He Ha Hv Hobs Htq Hvel)
      as (l & Hl & HD & _ & _ & H).
    exists l. split; [exact Hl|]. split; [exact HD | exact H].
Qed.

(** ** The pacing of [step] *)

Lemma slept_spec (t d : R) :
  In (Sleep d) (if Rlt_dec 0 t then [Sleep t] else []) <-> d = t /\ 0 < d.
Proof.
  destruct (Rlt_dec 0 t) as [Hpos | Hneg]; cbn [In]; split.
  - intros [H | []]. injection H as <-. now split.
  - intros [-> _]. now left.
  - intros [].
  - intros [-> Hd]. contradiction.
Qed.

Lemma render_pacing_sleeps (self : Env) (now1 now2 d : R) :
  In (Sleep d) (fst (render_pacing self now1 now2)) <->
  d = control_time_step self - (now1 - _last_frame_time self) /\ 0 < d.
Proof.
  unfold render_pacing.
  cbn [control_time_step _last_frame_time set_last_frame_time spot].
  rewrite <- slept_spec.
  destruct (firstn 3 _) as [|yaw [|pitch [|dist [|extra rest]]]];
    cbn [fst]; try reflexivity.
  rewrite in_app_iff. cbn [In]. split.
  - intros [H | [H | []]]; [exact H | discriminate H].
  - intros H. now left.
Qed.

(** C8.  [step] sleeps only when rendering is on and the time left in the
    control interval, [control_time_step] minus the time spent since the last
    frame, is positive; it then sleeps exactly that long, so it never asks
    for a sleep of zero or negative length. *)
Theorem sleep_only_for_positive_time
  (self : Env) (action : list R) (smach : BezierStepper) (now1 now2 d : R) :
  In (Sleep d) (fst (step self action smach now1 now2)) <->
  _is_render self = true /\
  d = control_time_step self - (now1 - _last_frame_time self) /\
  0 < d.
Proof.
  unfold step. cbn [_is_render set_last_base].
  destruct (_is_render self).
  - destruct (render_pacing _ now1 now2) as [effects paced] eqn:E.
    cbn [fst].
    change effects with (fst (effects, paced)). rewrite <- E.
    rewrite render_pacing_sleeps.
    cbn [control_time_step _last_frame_time set_last_base].
    split; [intros H; split; [reflexivity | exact H] | intros [_ H]; exact H].
  - cbn [fst In]. split; [intros [] | intros (H & _); discriminate H].
Qed.

(** ** More about the reward *)

(** The instance [step] hands to the action transform: the pose snapshot
    taken, and under rendering the frame time set to the second clock
    reading. *)
Definition paced_env (self : Env) (now2 : R) : Env :=
  let snapshot :=
    set_last_base self (GetBasePosition (spot self))
                       (GetBaseOrientation (spot self)) in
  if _is_render self then set_last_frame_time snapshot now2 else snapshot.

(** The instance [step] evaluates the reward on: the robot has executed the
    transformed action. *)
Definition post_physics (self : Env) (action : list R) (now2 : R) : Env :=
  let paced := paced_env self now2 in
  set_spot paced
    (spot_Step (spot paced)
       (_transform_action_to_motor_command paced action)).

Lemma gaussian_antitone (x y : R) :
  Rabs x <= Rabs y -> exp (- y ^ 2 / 0.1) <= exp (- x ^ 2 / 0.1).
Proof.
  intros H. apply Rsqr_le_abs_1 in H. unfold Rsqr in H.
  assert (Hxy : - y ^ 2 / 0.1 <= - x ^ 2 / 0.1) by lra.
  destruct Hxy as [Hlt | Heq].
  - left. now apply exp_increasing.
  - right. now rewrite Heq.
Qed.

Lemma copysign_abs (x y : R) : Rabs (math.copysign x y) = Rabs x.
Proof.
  unfold math.copysign. destruct (Rlt_dec y 0).
  - now rewrite Rabs_Ropp, Rabs_Rabsolu.
  - apply Rabs_Rabsolu.
Qed.

Lemma copysign_negative (x y : R) : y < 0 -> math.copysign x y = - Rabs x.
Proof.
  intros Hy. unfold math.copysign.
  destruct (Rlt_dec y 0) as [_ | H]; [reflexivity | contradiction].
Qed.

Lemma copysign_opp_quarter (x y : R) :
  math.copysign (- x / 4) y = math.copysign (x / 4) y.
Proof.
  unfold math.copysign.
  replace (- x / 4) with (- (x / 4)) by lra. now rewrite Rabs_Ropp.
Qed.

(** [_reward] fails exactly when [_reward_locals] does. *)
Lemma reward_none_iff (self : Env) (smach : BezierStepper) :
  _reward self smach = None <-> _reward_locals self smach = None.
Proof.
  unfold _reward. destruct (_reward_locals self smach); cbn [bind];
    split; intros H; try reflexivity; discriminate H.
Qed.

(** [_reward_locals] fails exactly on the inputs that are not well formed. *)
Lemma locals_none_iff (self : Env) (smach : BezierStepper) :
  _reward_locals self smach = None <->
  (length (_get_observation (spot self)) < 5)%nat \/
  length (GetMotorTorques (spot self))
  <> length (GetMotorVelocities (spot self)).
Proof.
  split.
  - intros Hnone.
    destruct (Compare_dec.le_lt_dec 5 (length (_get_observation (spot self))))
      as [Hobs | Hobs]; [|now left].
    destruct (PeanoNat.Nat.eq_dec
                (length (GetMotorTorques (spot self)))
                (length (GetMotorVelocities (spot self))))
      as [Hlen | Hlen]; [|now right].
    destruct (reward_locals_defined self smach (conj Hobs Hlen)) as [l Hl].
    rewrite Hl in Hnone. discriminate Hnone.
  - intros Hbad.
    destruct (_reward_locals self smach) as [l|] eqn:Hl; [|reflexivity].
    destruct (reward_locals_well_formed _ _ _ Hl) as [Hobs Hlen].
    destruct Hbad as [Hshort | Hdiff]; [lia | contradiction].
Qed.

(** X1.  [_reward] raises exactly when the observation has fewer than five
    entries or the motor torques and the motor velocities differ in length;
    on every other input it returns, and a call that raises has appended
    nothing. *)
Theorem reward_raises_iff (self : Env) (smach : BezierStepper) :
  _reward self smach = None <->
  (length (_get_observation (spot self)) < 5)%nat \/
  length (GetMotorTorques (spot self))
  <> length (GetMotorVelocities (spot self)).
Proof. rewrite reward_none_iff. apply locals_none_iff. Qed.

(** X4.  With non-negative weights and a non-negative time step the reward
    never exceeds [2 * distance_weight + rotation_weight]: the tracking terms
    are at most 2 and 1, and everything else can only subtract. *)
Theorem reward_upper_bound (self : Env) (smach : BezierStepper) :
  well_formed self ->
  0 <= _distance_weight self ->
  0 <= _rotation_weight self ->
  0 <= _energy_weight self ->
  0 <= _rp_weight self ->
  0 <= _rate_weight self ->
  0 <= _time_step self ->
  exists r self',
    _reward self smach = Some (r, self') /\
    r <= 2 * _distance_weight self + _rotation_weight self.
Proof.
  intros Hwf Hdw Hrw Hew Hrpw Hratew Hts.
  destruct (reward_locals_defined self smach Hwf) as [l Hl].
  do 2 eexists. split; [apply reward_of_locals; exact Hl|].
  destruct (locals_tracking _ _ _ Hl) as (Hf & Hlat & Hsum).
  destruct (locals_rot _ _ _ Hl) as (_ & Hrot).
  destruct (locals_rp _ _ _ Hl) as (o0 & o1 & _ & _ & Hrp).
  destruct (locals_rate _ _ _ Hl) as (o2 & o3 & _ & _ & Hrate).
  destruct (locals_fixed _ _ _ Hl) as [Hs Hd].
  destruct (locals_energy _ _ _ Hl) as (power & _ & Hen).
  assert (Bf : 0 < forward_tracking l <= 1)
    by (rewrite Hf; apply gaussian_bounds).
  assert (Bl : 0 < lateral_reward l <= 1)
    by (rewrite Hlat; apply gaussian_bounds).
  assert (Br : 0 < rot_reward l <= 1)
    by (rewrite Hrot; apply gaussian_bounds).
  assert (Brp : rp_reward l <= 0).
  { rewrite Hrp. pose proof (Rabs_pos o0). pose proof (Rabs_pos o1). lra. }
  assert (Brate : rate_reward l <= 0).
  { rewrite Hrate. pose proof (Rabs_pos o2). pose proof (Rabs_pos o3). lra. }
  assert (Ben : energy_reward l <= 0).
  { rewrite Hen. pose proof (Rabs_pos power). nra. }
  rewrite Hs, Hd, Hsum.
  assert (_energy_weight self * energy_reward l <= 0) by nra.
  assert (_rp_weight self * rp_reward l <= 0) by nra.
  assert (_rate_weight self * rate_reward l <= 0) by nra.
  assert (_distance_weight self * (forward_tracking l + lateral_reward l)
          <= 2 * _distance_weight self) by nra.
  assert (_rotation_weight self * rot_reward l <= _rotation_weight self)
    by nra.
  lra.
Qed.

(** X5.  The desired forward speed takes its magnitude from [StepVelocity]
    and its sign from [StepLength] alone: it is [-|StepVelocity| / 4] for a
    negative step length and [|StepVelocity| / 4] for a positive one (for a
    step length of zero the sign bit decides).  The sign of [StepVelocity] is
    discarded, so a gait with the step velocity negated gets the same reward
    and the same log entry. *)
Theorem desired_speed_sign_and_magnitude
  (self : Env) (smach : BezierStepper) :
  well_formed self ->
  exists l,
    _reward_locals self smach = Some l /\
    Rabs (DesiredVelicty l) = Rabs (StepVelocity smach) / 4 /\
    (StepLength smach < 0 ->
     DesiredVelicty l = - (Rabs (StepVelocity smach) / 4)) /\
    (0 < StepLength smach ->
     DesiredVelicty l = Rabs (StepVelocity smach) / 4) /\
    _reward self {| StepLength := StepLength smach;
                    LateralFraction := LateralFraction smach;
                    YawRate := YawRate smach;
                    StepVelocity := - StepVelocity smach |}
    = _reward self smach.
Proof.
  intros Hwf.
  destruct (reward_locals_defined self smach Hwf) as [l Hl].
  exists l. split; [exact Hl|].
  pose proof (locals_desired _ _ _ Hl) as HD.
  split; [rewrite HD, copysign_abs; apply Rabs_quarter|].
  split; [intros Hneg; rewrite HD, copysign_negative by exact Hneg;
          now rewrite Rabs_quarter|].
  split; [intros Hpos; rewrite HD, copysign_positive by exact Hpos;
          apply Rabs_quarter|].
  unfold _reward, _reward_locals.
  cbn [StepLength LateralFraction YawRate StepVelocity].
  rewrite copysign_opp_quarter. reflexivity.
Qed.

(** What a returning [_reward] leaves alone, for use on any instance. *)
Lemma reward_changes_only (self' self : Env) (smach : BezierStepper) (r : R) :
  _reward self smach = Some (r, self') ->
  self' = set_objectives self (_objectives self') /\ spot self' = spot self.
Proof.
  intros H. unfold _reward in H.
  destruct (_reward_locals self smach) as [l|]; [|discriminate H].
  cbn [bind] in H. injection H as _ <-. now split.
Qed.

(** ** More about [step] *)

Lemma camera_slice (c : list R) :
  (11 <= length c)%nat ->
  exists yaw pitch dist,
    firstn 3 (skipn 8 c) = [yaw; pitch; dist] /\
    nth_error c 8 = Some yaw /\
    nth_error c 9 = Some pitch /\
    nth_error c 10 = Some dist.
Proof.
  intros H.
  do 11 (destruct c as [|? c]; [cbn [length] in H; lia|]).
  cbn. eauto 7.
Qed.

Lemma camera_slice_short (c : list R) :
  (length c < 11)%nat ->
  forall yaw pitch dist, firstn 3 (skipn 8 c) <> [yaw; pitch; dist].
Proof.
  intros H yaw pitch dist E.
  assert (Hlen : length (firstn 3 (skipn 8 c)) = 3%nat)
    by (rewrite E; reflexivity).
  rewrite length_firstn, length_skipn in Hlen. lia.
Qed.

(** What [step] returns once the pacing block is through. *)
Lemma step_after_pacing
  (self : Env) (action : list R) (smach : BezierStepper) (now1 now2 : R) :
  _is_render self = false \/
  (11 <= length (getDebugVisualizerCamera (paced_env self now2)))%nat ->
  snd (step self action smach now1 now2) =
  rs <- _reward (post_physics self action now2) smach ;;
  (let '(reward, s) := rs in
   let counted := set_env_step_counter s (S (_env_step_counter s)) in
   let drawn :=
     if draw_foot_path counted then DrawFootPath counted else counted in
   Some (_get_observation (spot drawn), reward, _termination s, drawn)).
Proof.
  intros Hok. unfold step, post_physics, paced_env.
  cbn [_is_render set_last_base].
  destruct (_is_render self) eqn:Hr.
  - destruct Hok as [Hoff | Hcam]; [discriminate Hoff|].
    unfold paced_env in Hcam. rewrite Hr in Hcam.
    destruct (camera_slice _ Hcam) as (yaw & pitch & dist & E & _).
    unfold render_pacing. rewrite E. reflexivity.
  - reflexivity.
Qed.

Lemma step_camera_unpack_fails
  (self : Env) (action : list R) (smach : BezierStepper) (now1 now2 : R) :
  _is_render self = true ->
  (length (getDebugVisualizerCamera (paced_env self now2)) < 11)%nat ->
  snd (step self action smach now1 now2) = None.
Proof.
  intros Hr Hcam. unfold step. cbn [_is_render set_last_base].
  rewrite Hr. unfold paced_env in Hcam. rewrite Hr in Hcam.
  pose proof (camera_slice_short _ Hcam) as Hne.
  unfold render_pacing.
  destruct (firstn 3 _) as [|yaw [|pitch [|dist [|extra rest]]]];
    try reflexivity.
  exfalso. exact (Hne yaw pitch dist eq_refl).
Qed.

(** The state [step] ends in when it returns and draws no foot path. *)
Lemma step_final_state
  (self self' : Env) (action : list R) (smach : BezierStepper)
  (now1 now2 : R) (effects : list Effect) (o : list R) (r : R) (d : bool) :
  draw_foot_path self = false ->
  step self action smach now1 now2 = (effects, Some (o, r, d, self')) ->
  exists rewarded,
    _reward (post_physics self action now2) smach = Some (r, rewarded) /\
    self' = set_env_step_counter rewarded (S (_env_step_counter self)) /\
    d = _termination rewarded /\
    o = _get_observation (spot (post_physics self action now2)).
Proof.
  intros Hdraw Hstep.
  assert (Hsnd : snd (step self action smach now1 now2)
                 = Some (o, r, d, self')) by (rewrite Hstep; reflexivity).
  assert (Hok : _is_render self = false \/
                (11 <= length (getDebugVisualizerCamera
                                 (paced_env self now2)))%nat).
  { destruct (_is_render self) eqn:Hr; [right | now left].
    destruct (Compare_dec.le_lt_dec 11
                (length (getDebugVisualizerCamera (paced_env self now2))))
      as [Hcam | Hcam]; [exact Hcam|].
    rewrite (step_camera_unpack_fails self action smach now1 now2 Hr Hcam)
      in Hsnd. discriminate Hsnd. }
  rewrite (step_after_pacing self action smach now1 now2 Hok) in Hsnd.
  destruct (_reward (post_physics self action now2) smach)
    as [[reward rewarded]|] eqn:Hrew; [|discriminate Hsnd].
  cbn [bind] in Hsnd.
  destruct (reward_changes_only rewarded _ _ _ Hrew) as [Hsame Hspot].
  assert (Hpost : draw_foot_path (post_physics self action now2) = false
                  /\ _env_step_counter (post_physics self action now2)
                     = _env_step_counter self).
  { unfold post_physics, paced_env. destruct (_is_render self); now split. }
  destruct Hpost as [Hpd Hpc].
  assert (Hd : draw_foot_path
                 (set_env_step_counter rewarded
                    (S (_env_step_counter rewarded))) = false).
  { rewrite Hsame. exact Hpd. }
  rewrite Hd in Hsnd. injection Hsnd as <- <- <- <-.
  exists rewarded. split; [reflexivity|]. split.
  - f_equal. f_equal. rewrite Hsame. exact Hpc.
  - split; [reflexivity|]. cbn [spot set_env_step_counter].
    now rewrite Hspot.
Qed.

Lemma reward_log_grows (self self' : Env) (smach : BezierStepper) (r : R) :
  _reward self smach = Some (r, self') ->
  exists entry,
    _objectives self' = _objectives self ++ [entry] /\ length entry = 4%nat.
Proof.
  intros H. unfold _reward in H.
  destruct (_reward_locals self smach) as [l|]; [|discriminate H].
  cbn [bind] in H. injection H as _ <-.
  eexists. split; reflexivity.
Qed.

Lemma bind_none_iff {A B : Type} (c : option A) (k : A -> option B) :
  (forall a, k a <> None) -> (bind c k = None <-> c = None).
Proof.
  intros Hk. destruct c as [a|]; cbn [bind]; split; intros H;
    try reflexivity; try discriminate H.
  now destruct (Hk a).
Qed.

(** X9.  With rendering on and a camera tuple of at least eleven values,
    [step] resets the camera exactly once, after any sleep: with the yaw,
    pitch and distance it just read at positions 8, 9 and 10, aimed at the
    base position the robot had before the action was applied. *)
Theorem step_camera_follows
  (self : Env) (action : list R) (smach : BezierStepper) (now1 now2 : R) :
  _is_render self = true ->
  (11 <= length (getDebugVisualizerCamera (paced_env self now2)))%nat ->
  exists yaw pitch dist,
    nth_error (getDebugVisualizerCamera (paced_env self now2)) 8 = Some yaw /\
    nth_error (getDebugVisualizerCamera (paced_env self now2)) 9
    = Some pitch /\
    nth_error (getDebugVisualizerCamera (paced_env self now2)) 10
    = Some dist /\
    fst (step self action smach now1 now2) =
    (let time_to_sleep :=
       control_time_step self - (now1 - _last_frame_time self) in
     if Rlt_dec 0 time_to_sleep then [Sleep time_to_sleep] else [])
    ++ [ResetDebugVisualizerCamera dist yaw pitch
          (GetBasePosition (spot self))].
Proof.
  intros Hr Hcam.
  destruct (camera_slice _ Hcam) as (yaw & pitch & dist & E & H8 & H9 & H10).
  exists yaw, pitch, dist.
  split; [exact H8|]. split; [exact H9|]. split; [exact H10|].
  unfold paced_env in E. rewrite Hr in E.
  unfold step. cbn [_is_render set_last_base]. rewrite Hr.
  unfold render_pacing. rewrite E. reflexivity.
Qed.

(** X10.  A [step] that returns, with foot-path drawing off, has advanced the
    step counter by one, kept as "last" pose the pose the robot had before the
    action, set the frame time to the second clock reading when rendering,
    replaced the robot by the one that executed the transformed action, and
    appended one four-element entry to the log.  The observation returned is
    that robot's, and the termination predicate was asked after the log entry
    was appended but before the counter moved. *)
Theorem step_bookkeeping
  (self self' : Env) (action : list R) (smach : BezierStepper)
  (now1 now2 : R) (effects : list Effect) (o : list R) (r : R) (d : bool) :
  draw_foot_path self = false ->
  step self action smach now1 now2 = (effects, Some (o, r, d, self')) ->
  _env_step_counter self' = S (_env_step_counter self) /\
  _last_base_position self' = GetBasePosition (spot self) /\
  _last_base_orientation self' = GetBaseOrientation (spot self) /\
  _last_frame_time self'
  = (if _is_render self then now2 else _last_frame_time self) /\
  spot self'
  = spot_Step (spot self)
      (_transform_action_to_motor_command (paced_env self now2) action) /\
  (exists entry,
      _objectives self' = _objectives self ++ [entry] /\
      length entry = 4%nat) /\
  o = _get_observation (spot self') /\
  d = _termination (set_env_step_counter self' (_env_step_counter self)).
Proof.
  intros Hdraw Hstep.
  destruct (step_final_state _ _ _ _ _ _ _ _ _ _ Hdraw Hstep)
    as (rewarded & Hrew & -> & -> & ->).
  destruct (reward_changes_only _ _ _ _ Hrew) as [Hsame Hspot].
  destruct (reward_log_grows _ _ _ _ Hrew) as (entry & Hlog & Hlen).
  cbn [_env_step_counter _last_base_position _last_base_orientation
       _last_frame_time spot _objectives set_env_step_counter].
  split; [reflexivity|].
  assert (Hpost : post_physics self action now2
                  = set_spot (paced_env self now2)
                      (spot_Step (spot self)
                         (_transform_action_to_motor_command
                            (paced_env self now2) action))).
  { unfold post_physics, paced_env. now destruct (_is_render self). }
  rewrite Hspot, Hlog, Hsame, Hpost.
  cbn [_last_base_position _last_base_orientation _last_frame_time spot
       _objectives set_objectives set_spot].
  unfold paced_env.
  destruct (_is_render self).
  - repeat split. now exists entry.
  - repeat split. now exists entry.
Qed.

(** X11.  [step] raises in each of these three cases: rendering is on and
    the camera tuple has fewer than eleven values; or, after the robot has
    executed the action, its observation has fewer than five entries; or its
    motor torques and motor velocities then differ in length.  (The
    [ValueError]s of the docstring are raised inside the action transform and
    the physics step, outside this file, and come on top of these.) *)
Theorem step_raises_when
  (self : Env) (action : list R) (smach : BezierStepper) (now1 now2 : R) :
  (_is_render self = true /\
   (length (getDebugVisualizerCamera (paced_env self now2)) < 11)%nat) \/
  (length (_get_observation (spot (post_physics self action now2))) < 5)%nat
  \/
  length (GetMotorTorques (spot (post_physics self action now2)))
  <> length (GetMotorVelocities (spot (post_physics self action now2))) ->
  snd (step self action smach now1 now2) = None.
Proof.
  destruct (Bool.bool_dec (_is_render self) true) as [Hr | Hr];
    [destruct (Compare_dec.le_lt_dec 11
                 (length (getDebugVisualizerCamera (paced_env self now2))))
       as [Hcam | Hcam] |].
  - rewrite step_after_pacing by (now right).
    rewrite bind_none_iff by (intros [reward s]; discriminate).
    rewrite reward_none_iff, locals_none_iff.
    intros [[_ H] | H]; [lia | exact H].
  - rewrite (step_camera_unpack_fails _ _ _ _ _ Hr Hcam). reflexivity.
  - apply Bool.not_true_is_false in Hr.
    rewrite step_after_pacing by (now left).
    rewrite bind_none_iff by (intros [reward s]; discriminate).
    rewrite reward_none_iff, locals_none_iff.
    intros [[H _] | H]; [congruence | exact H].
Qed.

(** X13.  Two [step]s in a row that both return, with foot-path drawing off:
    the counter has moved by two, the log has gained two entries in call
    order, and the "last" pose is the pose the robot was left in by the first
    step, not the initial one. *)
Theorem two_steps
  (self self1 self2 : Env) (action1 action2 : list R)
  (smach1 smach2 : BezierStepper) (t1 t2 t3 t4 : R)
  (effects1 effects2 : list Effect) (o1 o2 : list R) (r1 r2 : R)
  (d1 d2 : bool) :
  draw_foot_path self = false ->
  step self action1 smach1 t1 t2 = (effects1, Some (o1, r1, d1, self1)) ->
  step self1 action2 smach2 t3 t4 = (effects2, Some (o2, r2, d2, self2)) ->
  _env_step_counter self2 = S (S (_env_step_counter self)) /\
  (exists entry1 entry2,
      _objectives self1 = _objectives self ++ [entry1] /\
      _objectives self2 = _objectives self ++ [entry1; entry2]) /\
  _last_base_position self2 = GetBasePosition (spot self1) /\
  _last_base_orientation self2 = GetBaseOrientation (spot self1).
Proof.
  intros Hdraw Hstep1 Hstep2.
  assert (Hdraw1 : draw_foot_path self1 = false).
  { destruct (step_final_state _ _ _ _ _ _ _ _ _ _ Hdraw Hstep1)
      as (rewarded & Hrew & -> & _ & _).
    destruct (reward_changes_only _ _ _ _ Hrew) as [-> _].
    unfold post_physics, paced_env.
    destruct (_is_render self); exact Hdraw. }
  destruct (step_final_state _ _ _ _ _ _ _ _ _ _ Hdraw Hstep1)
    as (rewarded1 & Hrew1 & E1 & _ & _).
  destruct (step_final_state _ _ _ _ _ _ _ _ _ _ Hdraw1 Hstep2)
    as (rewarded2 & Hrew2 & E2 & _ & _).
  destruct (reward_changes_only _ _ _ _ Hrew1) as [Hsame1 _].
  destruct (reward_changes_only _ _ _ _ Hrew2) as [Hsame2 _].
  destruct (reward_log_grows _ _ _ _ Hrew1) as (entry1 & Hlog1 & _).
  destruct (reward_log_grows _ _ _ _ Hrew2) as (entry2 & Hlog2 & _).
  assert (Hobj1 : _objectives self1 = _objectives self ++ [entry1]).
  { rewrite E1. cbn [_objectives set_env_step_counter]. rewrite Hlog1.
    unfold post_physics, paced_env. now destruct (_is_render self). }
  assert (Hcount1 : _env_step_counter self1 = S (_env_step_counter self))
    by (rewrite E1; reflexivity).
  split; [rewrite E2; cbn [_env_step_counter set_env_step_counter];
          now rewrite Hcount1|].
  split.
  - exists entry1, entry2. split; [exact Hobj1|].
    rewrite E2. cbn [_objectives set_env_step_counter]. rewrite Hlog2.
    replace (_objectives (post_physics self1 action2 t4))
      with (_objectives self1)
      by (unfold post_physics, paced_env; now destruct (_is_render self1)).
    rewrite Hobj1, <- app_assoc. reflexivity.
  - rewrite E2, Hsame2.
    unfold post_physics, paced_env.
    destruct (_is_render self1); now split.
Qed.

(** ** Rounding to binary64 *)

Lemma nearest_even_le (x : R) (m : Z) :
  x <= IZR m -> (F64.nearest_even x <= m)%Z.
Proof.
  intros H. unfold F64.nearest_even.
  pose proof (Zfloor_bound x) as [Hlo Hhi].
  assert (Hn : (Zfloor x <= m)%Z) by (apply le_IZR; lra).
  destruct (Z.eq_dec (Zfloor x) m) as [E | NE].
  - destruct (Rlt_dec _ _) as [_ | Hc]; [exact Hn|].
    exfalso. apply Hc. rewrite E in Hlo |- *. lra.
  - repeat destruct (Rlt_dec _ _); try destruct (Z.even _); lia.
Qed.



Lemma nearest_even_IZR (m : Z) : F64.nearest_even (IZR m) = m.
Proof.
  unfold F64.nearest_even.
  assert (E : Zfloor (IZR m) = m) by (apply Zfloor_eq; lra).
  rewrite E. destruct (Rlt_dec _ _) as [_ | Hc]; [reflexivity|].
  exfalso. apply Hc. lra.
Qed.

Lemma two_powerRZ_pos (e : Z) : 0 < powerRZ 2 e.
Proof. apply powerRZ_lt. lra. Qed.

Lemma powerRZ_2_IZR (k : Z) : (0 <= k)%Z -> powerRZ 2 k = IZR (2 ^ k).
Proof.
  intros Hk. rewrite <- (Z2Nat.id k Hk) at 1 2.
  rewrite <- pow_powerRZ. now rewrite pow_IZR.
Qed.

Lemma powerRZ_2_cancel (e : Z) : powerRZ 2 (- e) * powerRZ 2 e = 1.
Proof.
  rewrite <- powerRZ_add by lra.
  replace (- e + e)%Z with 0%Z by lia. reflexivity.
Qed.





Lemma round_1 : F64.round 1 = 1.
Proof.
  unfold F64.round.
  assert (He : F64.ulp_exponent 1 = (-52)%Z).
  { unfold F64.ulp_exponent. rewrite Rabs_R1.
    destruct (Rlt_dec _ _) as [Hc | _].
    - exfalso. assert (H : powerRZ 2 (-1022) < 1).
      { change (powerRZ 2 (-1022)) with (/ (2 ^ Pos.to_nat 1022)).
        rewrite <- Rinv_1. apply Rinv_lt_contravar.
        - rewrite Rmult_1_l. apply pow_lt. lra.
        - apply Rlt_pow_R1; [lra | lia]. }
      lra.
    - rewrite ln_1. unfold Rdiv. rewrite Rmult_0_l.
      replace (Zfloor 0) with 0%Z; [reflexivity|].
      symmetry. apply Zfloor_eq. cbn [IZR]. lra. }
  rewrite He. change (- -52)%Z with 52%Z.
  rewrite Rmult_1_l, (powerRZ_2_IZR 52) by lia.
  rewrite nearest_even_IZR. rewrite <- (powerRZ_2_IZR 52) by lia.
  apply (powerRZ_2_cancel (-52)).
Qed.




Lemma np_exp_0 : F64.np_exp 0 = 1.
Proof. unfold F64.np_exp. rewrite exp_0. apply round_1. Qed.


(** *** Rounding keeps the order *)

Lemma nearest_even_ge (x : R) (m : Z) :
  IZR m <= x -> (m <= F64.nearest_even x)%Z.
Proof.
  intros H. unfold F64.nearest_even.
  assert (Hn : (m <= Zfloor x)%Z) by now apply Zfloor_lub.
  repeat destruct (Rlt_dec _ _); try destruct (Z.even _); lia.
Qed.

Lemma nearest_even_monotone (x y : R) :
  x <= y -> (F64.nearest_even x <= F64.nearest_even y)%Z.
Proof.
  intros H. pose proof (Zfloor_le x y H) as Hfl.
  destruct (Z.eq_dec (Zfloor x) (Zfloor y)) as [E | NE].
  - unfold F64.nearest_even. rewrite <- E.
    repeat destruct (Rlt_dec _ _); try destruct (Z.even _); try lia; lra.
  - apply Z.le_trans with (Zfloor y).
    + apply nearest_even_le. pose proof (Zfloor_bound x) as [_ Hx].
      assert (Hz : (Zfloor x + 1 <= Zfloor y)%Z) by lia.
      apply IZR_le in Hz. rewrite plus_IZR in Hz. lra.
    + apply nearest_even_ge. apply Zfloor_bound.
Qed.

(** Powers of two around a positive real. *)
Lemma powerRZ_2_exp (k : Z) : powerRZ 2 k = exp (IZR k * ln 2).
Proof. rewrite powerRZ_Rpower by lra. reflexivity. Qed.

Lemma ln_2_pos : 0 < ln 2.
Proof. rewrite <- ln_1. apply ln_increasing; lra. Qed.

Lemma floor_log2_bounds (y : R) :
  0 < y ->
  powerRZ 2 (Zfloor (ln y / ln 2)) <= y
  < powerRZ 2 (Zfloor (ln y / ln 2) + 1).
Proof.
  intros Hy. pose proof ln_2_pos as H2.
  pose proof (Zfloor_bound (ln y / ln 2)) as [Hlo Hhi].
  assert (Hq : ln y / ln 2 * ln 2 = ln y) by (field; lra).
  rewrite !powerRZ_2_exp, plus_IZR.
  rewrite <- (exp_ln y Hy) at 2 3. split.
  - assert (H : IZR (Zfloor (ln y / ln 2)) * ln 2 <= ln y) by nra.
    destruct H as [H | ->]; [left; now apply exp_increasing | right;
                                                             reflexivity].
  - apply exp_increasing. nra.
Qed.

Lemma powerRZ_2_le (a b : Z) : (a <= b)%Z -> powerRZ 2 a <= powerRZ 2 b.
Proof.
  intros H. rewrite !powerRZ_2_exp. pose proof ln_2_pos as H2.
  apply IZR_le in H.
  assert (Hm : IZR a * ln 2 <= IZR b * ln 2) by nra.
  destruct Hm as [Hm | ->]; [left; now apply exp_increasing | right;
                                                              reflexivity].
Qed.

Lemma ulp_exponent_lower (y : R) :
  0 <= y -> (-1074 <= F64.ulp_exponent y)%Z.
Proof.
  intros Hy. unfold F64.ulp_exponent. rewrite Rabs_right by lra.
  destruct (Rlt_dec _ _) as [_ | Hn]; [lia|].
  apply Rnot_lt_le in Hn.
  assert (Hpos : 0 < y)
    by (apply Rlt_le_trans with (powerRZ 2 (-1022));
        [apply two_powerRZ_pos | exact Hn]).
  assert (H : (-1022 <= Zfloor (ln y / ln 2))%Z).
  { apply Zfloor_lub. pose proof ln_2_pos as H2.
    assert (Hl : IZR (-1022) * ln 2 <= ln y).
    { rewrite <- (ln_exp (IZR (-1022) * ln 2)).
      rewrite <- powerRZ_2_exp.
      destruct Hn as [Hn | <-]; [left; apply ln_increasing;
                                 [apply two_powerRZ_pos | exact Hn]
                                | right; reflexivity]. }
    apply Rmult_le_reg_r with (ln 2); [exact H2|].
    replace (ln y / ln 2 * ln 2) with (ln y) by (field; lra). exact Hl. }
  lia.
Qed.

(** A non-negative real lies below [2^(e + 53)], where [e] is its ulp
    exponent, and from [2^(e + 52)] on unless it is subnormal. *)
Lemma ulp_exponent_upper (y : R) :
  0 <= y -> y < powerRZ 2 (F64.ulp_exponent y + 53).
Proof.
  intros Hy. unfold F64.ulp_exponent. rewrite Rabs_right by lra.
  destruct (Rlt_dec _ _) as [Hs | Hn].
  - apply Rlt_le_trans with (powerRZ 2 (-1022)); [exact Hs|].
    apply powerRZ_2_le. lia.
  - apply Rnot_lt_le in Hn.
    assert (Hpos : 0 < y)
      by (apply Rlt_le_trans with (powerRZ 2 (-1022));
          [apply two_powerRZ_pos | exact Hn]).
    replace (Zfloor (ln y / ln 2) - 52 + 53)%Z
      with (Zfloor (ln y / ln 2) + 1)%Z by lia.
    apply floor_log2_bounds. exact Hpos.
Qed.

Lemma ulp_exponent_normal (y : R) :
  0 <= y -> (-1074 < F64.ulp_exponent y)%Z ->
  powerRZ 2 (F64.ulp_exponent y + 52) <= y.
Proof.
  intros Hy. unfold F64.ulp_exponent. rewrite Rabs_right by lra.
  destruct (Rlt_dec _ _) as [Hs | Hn]; [lia|]. intros _.
  apply Rnot_lt_le in Hn.
  assert (Hpos : 0 < y)
    by (apply Rlt_le_trans with (powerRZ 2 (-1022));
        [apply two_powerRZ_pos | exact Hn]).
  replace (Zfloor (ln y / ln 2) - 52 + 52)%Z
    with (Zfloor (ln y / ln 2)) by lia.
  apply floor_log2_bounds. exact Hpos.
Qed.

Lemma ulp_exponent_monotone (x y : R) :
  0 <= x <= y -> (F64.ulp_exponent x <= F64.ulp_exponent y)%Z.
Proof.
  intros [Hx Hxy].
  pose proof (ulp_exponent_lower y (Rle_trans _ _ _ Hx Hxy)) as Hlow.
  unfold F64.ulp_exponent in *. rewrite !Rabs_right in * by lra.
  destruct (Rlt_dec x _) as [Hsx | Hnx]; [exact Hlow|].
  destruct (Rlt_dec y _) as [Hsy | Hny]; [lra|].
  apply Rnot_lt_le in Hnx.
  assert (Hpos : 0 < x)
    by (apply Rlt_le_trans with (powerRZ 2 (-1022));
        [apply two_powerRZ_pos | exact Hnx]).
  assert (Hln : ln x <= ln y).
  { destruct Hxy as [Hxy | <-]; [left; now apply ln_increasing | right;
                                                                reflexivity]. }
  pose proof ln_2_pos as H2.
  assert (Hq : ln x / ln 2 <= ln y / ln 2).
  { unfold Rdiv. apply Rmult_le_compat_r; [|exact Hln].
    left. now apply Rinv_0_lt_compat. }
  pose proof (Zfloor_le _ _ Hq). lia.
Qed.

(** Rounding keeps the order of non-negative reals. *)
Lemma round_monotone (x y : R) :
  0 <= x <= y -> F64.round x <= F64.round y.
Proof.
  intros [Hx Hxy]. assert (Hy : 0 <= y) by lra.
  pose proof (ulp_exponent_monotone x y (conj Hx Hxy)) as He.
  unfold F64.round.
  set (ex := F64.ulp_exponent x) in *. set (ey := F64.ulp_exponent y) in *.
  destruct (Z.eq_dec ex ey) as [E | NE].
  - rewrite E. apply Rmult_le_compat_r; [left; apply two_powerRZ_pos|].
    apply IZR_le, nearest_even_monotone.
    apply Rmult_le_compat_r; [left; apply two_powerRZ_pos | exact Hxy].
  - assert (Hlt : (ex < ey)%Z) by lia.
    apply Rle_trans with (powerRZ 2 (ey + 52)).
    + apply Rle_trans with (powerRZ 2 (ex + 53)); [|apply powerRZ_2_le; lia].
      rewrite powerRZ_add by lra. rewrite Rmult_comm.
      apply Rmult_le_compat_l; [left; apply two_powerRZ_pos|].
      rewrite (powerRZ_2_IZR 53) by lia.
      apply IZR_le, nearest_even_le. rewrite <- (powerRZ_2_IZR 53) by lia.
      apply Rmult_le_reg_r with (powerRZ 2 ex); [apply two_powerRZ_pos|].
      rewrite Rmult_assoc, powerRZ_2_cancel, Rmult_1_r.
      rewrite <- powerRZ_add by lra. rewrite Z.add_comm.
      left. apply ulp_exponent_upper. exact Hx.
    + rewrite powerRZ_add by lra. rewrite Rmult_comm.
      apply Rmult_le_compat_r; [left; apply two_powerRZ_pos|].
      rewrite (powerRZ_2_IZR 52) by lia.
      apply IZR_le, nearest_even_ge. rewrite <- (powerRZ_2_IZR 52) by lia.
      apply Rmult_le_reg_r with (powerRZ 2 ey); [apply two_powerRZ_pos|].
      rewrite Rmult_assoc, powerRZ_2_cancel, Rmult_1_r.
      rewrite <- powerRZ_add by lra. rewrite Z.add_comm.
      apply ulp_exponent_normal; [exact Hy|].
      pose proof (ulp_exponent_lower x Hx). fold ex in H. fold ey. lia.
Qed.

Lemma round_2 : F64.round 2 = 2.
Proof.
  unfold F64.round.
  assert (He : F64.ulp_exponent 2 = (-51)%Z).
  { unfold F64.ulp_exponent. rewrite Rabs_right by lra.
    destruct (Rlt_dec _ _) as [Hc | _].
    - exfalso. pose proof (powerRZ_2_le (-1022) 0 ltac:(lia)) as H.
      change (powerRZ 2 0) with 1 in H. lra.
    - pose proof ln_2_pos as H2.
      replace (ln 2 / ln 2) with (IZR 1) by (cbn [IZR]; field; lra).
      now rewrite ZfloorZ. }
  rewrite He. change (- -51)%Z with 51%Z.
  replace (2 * powerRZ 2 51) with (powerRZ 2 52)
    by (replace 52%Z with (1 + 51)%Z by lia;
        rewrite powerRZ_add by lra; rewrite powerRZ_1; reflexivity).
  rewrite (powerRZ_2_IZR 52) by lia.
  rewrite nearest_even_IZR. rewrite <- (powerRZ_2_IZR 52) by lia.
  rewrite <- powerRZ_add by lra. apply powerRZ_1.
Qed.



(** The rounded Gaussian never grows with the error. *)
Lemma np_gaussian_antitone (x y : R) :
  Rabs x <= Rabs y ->
  F64.np_exp (- y ^ 2 / 0.1) <= F64.np_exp (- x ^ 2 / 0.1).
Proof.
  intros H. unfold F64.np_exp. apply round_monotone.
  split; [left; apply exp_pos | now apply gaussian_antitone].
Qed.

(** *** The two rewards side by side *)

(** Where the real-number reward returns, the binary64 one returns the same
    locals with the Gaussian terms rounded. *)
Lemma reward_locals_f64_rounded
  (self : Env) (smach : BezierStepper) (l : Locals) :
  _reward_locals self smach = Some l ->
  _reward_locals_f64 self smach = Some (rounded l).
Proof.
  intros H. unfold _reward_locals_f64. run_reward H.
  unfold bind at 1. cbv beta iota zeta. rewrite E0, E1.
  unfold bind. cbv beta iota.
  unfold rounded, F64.np_exp.
  cbn [DesiredVelicty Vb obs fwd_speed lat_speed forward_tracking
       lateral_reward forward_reward yaw_rate rot_reward rp_reward
       shake_reward rate_reward drift_reward energy_reward].
  rewrite !Rmult_1_l. reflexivity.
Qed.

Lemma reward_locals_f64_defined (self : Env) (smach : BezierStepper) :
  well_formed self ->
  exists l,
    _reward_locals self smach = Some l /\
    _reward_locals_f64 self smach = Some (rounded l).
Proof.
  intros Hwf. destruct (reward_locals_defined self smach Hwf) as [l Hl].
  exists l. split; [exact Hl | now apply reward_locals_f64_rounded].
Qed.

(** A finite weight on a zero penalty adds nothing, whatever the weight. *)
Lemma add_finite_zero_term (a : F64.value) (w w' : R) :
  (a + F64.Finite w * F64.Finite 0)%f64
  = (a + F64.Finite w' * F64.Finite 0)%f64.
Proof.
  cbn [F64.mul]. replace (w * 0) with (w' * 0) by ring. reflexivity.
Qed.

(** C9, as the code has it.  The shake penalty and the drift penalty are 0
    in every evaluation and 0 is what the log entry records for them; the
    reward returned is the same for all finite values of [shake_weight] and
    [drift_weight], whatever the other weights are. *)
Theorem shake_and_drift_weights_finite
  (w : Weights) (self : Env) (smach : BezierStepper) :
  well_formed self ->
  exists l r self',
    _reward_locals_f64 self smach = Some l /\
    shake_reward l = 0 /\
    drift_reward l = 0 /\
    _reward_f64 w self smach = Some (r, self') /\
    last (_objectives self') [] =
      [forward_reward l; energy_reward l; 0; 0] /\
    (forall shake drift shake' drift' : R,
        _reward_f64
          (set_shake_drift w (F64.Finite shake) (F64.Finite drift))
          self smach
        = _reward_f64
            (set_shake_drift w (F64.Finite shake') (F64.Finite drift'))
            self smach).
Proof.
  intros Hwf.
  destruct (reward_locals_f64_defined self smach Hwf) as (l & Hl & Hl64).
  destruct (locals_fixed _ _ _ Hl) as [Hs Hd].
  exists (rounded l). do 2 eexists.
  split; [exact Hl64|]. split; [exact Hs|]. split; [exact Hd|].
  split; [unfold _reward_f64; rewrite Hl64; reflexivity|]. split.
  - cbn [_objectives set_objectives]. rewrite last_last.
    cbn [rounded drift_reward shake_reward]. now rewrite Hs, Hd.
  - intros shake drift shake' drift'.
    unfold _reward_f64. rewrite Hl64. cbn [bind].
    cbn [set_shake_drift distance_weight rotation_weight energy_weight
         shake_weight drift_weight rp_weight rate_weight
         rounded drift_reward shake_reward].
    rewrite Hs, Hd.
    rewrite (add_finite_zero_term _ drift drift').
    rewrite (add_finite_zero_term _ shake shake').
    reflexivity.
Qed.


(** X7.  Closer tracking never pays less, rounding and underflow of
    [np.exp] included: of two evaluations, the one with the smaller (or
    equal) absolute forward error has the larger (or equal) forward term, and
    likewise for the lateral error and the yaw-rate error. *)
Theorem tracking_rewards_decrease_with_error
  (self1 self2 : Env) (smach1 smach2 : BezierStepper) :
  well_formed self1 ->
  well_formed self2 ->
  exists l1 l2,
    _reward_locals_f64 self1 smach1 = Some l1 /\
    _reward_locals_f64 self2 smach2 = Some l2 /\
    (Rabs (fwd_speed l1
           - DesiredVelicty l1 * cos (LateralFraction smach1))
     <= Rabs (fwd_speed l2
              - DesiredVelicty l2 * cos (LateralFraction smach2)) ->
     forward_tracking l2 <= forward_tracking l1) /\
    (Rabs (lat_speed l1
           - DesiredVelicty l1 * sin (LateralFraction smach1))
     <= Rabs (lat_speed l2
              - DesiredVelicty l2 * sin (LateralFraction smach2)) ->
     lateral_reward l2 <= lateral_reward l1) /\
    (Rabs (yaw_rate l1 - YawRate smach1)
     <= Rabs (yaw_rate l2 - YawRate smach2) ->
     rot_reward l2 <= rot_reward l1).
Proof.
  intros Hwf1 Hwf2.
  destruct (reward_locals_f64_defined self1 smach1 Hwf1)
    as (l1 & Hl1 & Hr1).
  destruct (reward_locals_f64_defined self2 smach2 Hwf2)
    as (l2 & Hl2 & Hr2).
  exists (rounded l1), (rounded l2).
  split; [exact Hr1|]. split; [exact Hr2|].
  destruct (locals_tracking _ _ _ Hl1) as (Hf1 & Hlat1 & _).
  destruct (locals_tracking _ _ _ Hl2) as (Hf2 & Hlat2 & _).
  destruct (locals_rot _ _ _ Hl1) as (_ & Hrot1).
  destruct (locals_rot _ _ _ Hl2) as (_ & Hrot2).
  cbn [rounded fwd_speed lat_speed DesiredVelicty yaw_rate
       forward_tracking lateral_reward rot_reward].
  rewrite Hf1, Hf2, Hlat1, Hlat2, Hrot1, Hrot2.
  repeat split; apply np_gaussian_antitone.
Qed.


End spotBezierEnv.

(** ** Concrete runs *)

Lemma sample_euler_level : sample_euler (0, 0, 0, 1) = (0, 0, 0).
Proof.
  unfold sample_euler.
  assert (E : forall d, 2 * (1 * 0 + 0 * 0) / d = 0)
    by (intros d; unfold Rdiv; ring).
  rewrite !E.
  replace (2 * (1 * 0 - 0 * 0)) with 0 by ring.
  now rewrite atan_0, asin_0.
Qed.

Lemma level_spot_observation (ang lin : vec3) (torques velocities : list R) :
  sample_observation (level_spot ang lin torques velocities)
  = [0; 0; fst (fst ang); snd (fst ang); snd ang].
Proof.
  unfold sample_observation. cbn [level_spot GetBaseOrientation prev_ang_twist].
  rewrite sample_euler_level. now destruct ang as [[wx wy] wz].
Qed.

Lemma level_spot_well_formed
  (ang lin : vec3) (torques velocities : list R) :
  length torques = length velocities ->
  well_formed sample_observation
    (default_env (level_spot ang lin torques velocities)).
Proof.
  intros Hlen. split.
  - cbn [default_env spot]. rewrite level_spot_observation. apply le_n.
  - exact Hlen.
Qed.



Lemma forward_walk_scenario_witness :
  _reward sample_euler sample_observation (default_env walking_spot)
    forward_gait
  = Some (3, set_objectives (default_env walking_spot) [[2; 0; 0; 0]]) /\
  exists l,
    _reward_locals sample_euler sample_observation
      (default_env walking_spot) forward_gait = Some l /\
    DesiredVelicty l = 1 /\
    forward_tracking l = 1 /\
    lateral_reward l = 1 /\
    forward_reward l = 2 /\
    rot_reward l = 1 /\
    rp_reward l = 0 /\
    rate_reward l = 0 /\
    shake_reward l = 0 /\
    drift_reward l = 0 /\
    energy_reward l = 0.
Proof.
  apply (forward_walk_scenario sample_euler sample_observation
           (default_env walking_spot) 12).
  - apply sample_euler_level.
  - reflexivity.
  - reflexivity.
  - reflexivity.
  - apply level_spot_observation.
  - reflexivity.
  - reflexivity.
  - cbn. lra.
  - cbn. lra.
Defined.

Lemma reward_is_weighted_sum_witness :
  well_formed sample_observation (default_env walking_spot) /\
  exists l self',
    _reward_locals sample_euler sample_observation
      (default_env walking_spot) forward_gait = Some l /\
    forward_reward l = forward_tracking l + lateral_reward l /\
    _reward sample_euler sample_observation (default_env walking_spot)
      forward_gait =
    Some (1.0 * forward_reward l + 1.0 * rot_reward l +
          0.0005 * energy_reward l + 2.0 * drift_reward l +
          0.005 * shake_reward l + 0.1 * rp_reward l +
          0.1 * rate_reward l,
          self').
Proof.
  pose proof (level_spot_well_formed (0, 0, 0) (-1, 0, 0)
                (repeat 0 12%nat) (repeat 0 12%nat) eq_refl) as Hwf.
  split; [exact Hwf|].
  exact (reward_is_weighted_sum sample_euler sample_observation
           (default_env walking_spot) forward_gait Hwf).
Defined.



Lemma resting_body_twist :
  body_twist sample_euler (default_env resting_spot)
  = Some [0; 0; 0; 0; 0; 0].
Proof.
  apply body_twist_level; [apply sample_euler_level | reflexivity ..].
Qed.

Lemma tracking_rewards_at_zero_body_twist_witness :
  well_formed sample_observation (default_env resting_spot) /\
  body_twist sample_euler (default_env resting_spot)
  = Some [0; 0; 0; 0; 0; 0] /\
  exists l,
    _reward_locals sample_euler sample_observation
      (default_env resting_spot) forward_gait = Some l /\
    fwd_speed l = 0 /\
    lat_speed l = 0 /\
    forward_tracking l =
      exp (- (DesiredVelicty l * cos (LateralFraction forward_gait)) ^ 2
           / 0.1) /\
    lateral_reward l =
      exp (- (DesiredVelicty l * sin (LateralFraction forward_gait)) ^ 2
           / 0.1) /\
    (DesiredVelicty l * cos (LateralFraction forward_gait) = 0 ->
     forward_tracking l = 1) /\
    (DesiredVelicty l * sin (LateralFraction forward_gait) = 0 ->
     lateral_reward l = 1).
Proof.
  pose proof (level_spot_well_formed (0, 0, 0) (0, 0, 0)
                (repeat 0 12%nat) (repeat 0 12%nat) eq_refl) as Hwf.
  split; [exact Hwf|]. split; [exact resting_body_twist|].
  exact (tracking_rewards_at_zero_body_twist sample_euler sample_observation
           (default_env resting_spot) forward_gait Hwf resting_body_twist).
Defined.

Lemma reward_appends_one_entry_witness :
  well_formed sample_observation (default_env walking_spot) /\
  exists l r self',
    _reward_locals sample_euler sample_observation
      (default_env walking_spot) forward_gait = Some l /\
    _reward sample_euler sample_observation (default_env walking_spot)
      forward_gait = Some (r, self') /\
    _objectives self' =
      _objectives (default_env walking_spot) ++
      [[forward_tracking l + lateral_reward l; energy_reward l;
        drift_reward l; shake_reward l]] /\
    length (_objectives self')
    = S (length (_objectives (default_env walking_spot))) /\
    (forall i, (i < length (_objectives (default_env walking_spot)))%nat ->
               nth_error (_objectives self') i
               = nth_error (_objectives (default_env walking_spot)) i).
Proof.
  pose proof (level_spot_well_formed (0, 0, 0) (-1, 0, 0)
                (repeat 0 12%nat) (repeat 0 12%nat) eq_refl) as Hwf.
  split; [exact Hwf|].
  exact (reward_appends_one_entry sample_euler sample_observation
           (default_env walking_spot) forward_gait Hwf).
Defined.

Lemma attitude_and_rate_penalties_monotone_witness :
  well_formed sample_observation (default_env resting_spot) /\
  well_formed sample_observation (default_env rocking_spot) /\
  exists l1 l2,
    _reward_locals sample_euler sample_observation
      (default_env resting_spot) forward_gait = Some l1 /\
    _reward_locals sample_euler sample_observation
      (default_env rocking_spot) forward_gait = Some l2 /\
    (abs_sum (sample_observation resting_spot) 0 1
     <= abs_sum (sample_observation rocking_spot) 0 1 ->
     rp_reward l2 <= rp_reward l1) /\
    (abs_sum (sample_observation resting_spot) 2 3
     <= abs_sum (sample_observation rocking_spot) 2 3 ->
     rate_reward l2 <= rate_reward l1).
Proof.
  pose proof (level_spot_well_formed (0, 0, 0) (0, 0, 0)
                (repeat 0 12%nat) (repeat 0 12%nat) eq_refl) as Hwf1.
  pose proof (level_spot_well_formed (0.5, 0.25, 0) (0, 0, 0)
                (repeat 0 12%nat) (repeat 0 12%nat) eq_refl) as Hwf2.
  split; [exact Hwf1|]. split; [exact Hwf2|].
  exact (attitude_and_rate_penalties_monotone sample_euler sample_observation
           (default_env resting_spot) (default_env rocking_spot)
           forward_gait forward_gait Hwf1 Hwf2).
Defined.

(** A frame that took 4 ms of a 10 ms control interval: [step] sleeps the
    remaining 6 ms. *)
Lemma sleep_only_for_positive_time_witness :
  In (Sleep 0.006)
     (fst (step sample_euler sample_camera sample_observation
             sample_transform sample_Step sample_termination
             sample_DrawFootPath (default_env walking_spot)
             (repeat 0 12%nat) forward_gait 0.004 0.01)) /\
  0 < 0.006.
Proof.
  split; [|lra].
  apply (sleep_only_for_positive_time sample_euler sample_camera
           sample_observation sample_transform sample_Step
           sample_termination sample_DrawFootPath
           (default_env walking_spot) (repeat 0 12%nat) forward_gait
           0.004 0.01 0.006).
  cbn [default_env _is_render control_time_step _last_frame_time].
  repeat split; lra.
Defined.

(** The whole of [step] on the forward-walk scenario, the frame being late:
    no sleep, the camera follows, the reward is 3 and the counter moves on. *)
Lemma step_forward_walk :
  step sample_euler sample_camera sample_observation sample_transform
    sample_Step sample_termination sample_DrawFootPath
    (default_env walking_spot) (repeat 0 12%nat) forward_gait 0.02 0.02
  = ([ResetDebugVisualizerCamera 1 50 (-35) (0, 0, 0)],
     Some ([0; 0; 0; 0; 0], 3, false,
           set_env_step_counter
             (set_objectives
                (set_last_frame_time
                   (set_last_base (default_env walking_spot)
                      (0, 0, 0) (0, 0, 0, 1)) 0.02)
                [[2; 0; 0; 0]]) 1)).
Proof.
  unfold step, render_pacing, forward_gait.
  cbn -[_reward Rlt_dec Rminus].
  match goal with
  | |- context [Rlt_dec 0 ?t] => destruct (Rlt_dec 0 t) as [H | _]; [lra|]
  end.
  match goal with
  | |- context [_reward sample_euler sample_observation ?e _] =>
      rewrite (forward_walk_reward sample_euler sample_observation e 12)
  end; try reflexivity.
  - cbn -[sample_observation walking_spot]. unfold walking_spot.
    rewrite level_spot_observation. reflexivity.
  - apply sample_euler_level.
  - apply level_spot_observation.
  - cbn. lra.
  - cbn. lra.
Qed.

(** ** Concrete runs of the further properties *)

Lemma walking_reward :
  _reward sample_euler sample_observation (default_env walking_spot)
    forward_gait
  = Some (3, set_objectives (default_env walking_spot) [[2; 0; 0; 0]]).
Proof.
  apply (forward_walk_reward sample_euler sample_observation
           (default_env walking_spot) 12);
    try reflexivity.
  - apply sample_euler_level.
  - apply level_spot_observation.
  - cbn. lra.
  - cbn. lra.
Qed.

Lemma step_forward_walk_again :
  step sample_euler sample_camera sample_observation sample_transform
    sample_Step sample_termination sample_DrawFootPath
    after_one_step (repeat 0 12%nat) forward_gait 0.04 0.04
  = ([ResetDebugVisualizerCamera 1 50 (-35) (0, 0, 0)],
     Some ([0; 0; 0; 0; 0], 3, false, after_two_steps)).
Proof.
  unfold step, render_pacing, forward_gait.
  cbn -[_reward Rlt_dec Rminus].
  match goal with
  | |- context [Rlt_dec 0 ?t] => destruct (Rlt_dec 0 t) as [H | _]; [lra|]
  end.
  match goal with
  | |- context [_reward sample_euler sample_observation ?e _] =>
      rewrite (forward_walk_reward sample_euler sample_observation e 12)
  end; try reflexivity.
  - cbn -[sample_observation walking_spot]. unfold walking_spot.
    rewrite level_spot_observation. reflexivity.
  - apply sample_euler_level.
  - apply level_spot_observation.
  - cbn. lra.
  - cbn. lra.
Qed.

Lemma reward_upper_bound_witness :
  well_formed sample_observation (default_env rocking_spot) /\
  0 <= _distance_weight (default_env rocking_spot) /\
  0 <= _rotation_weight (default_env rocking_spot) /\
  0 <= _energy_weight (default_env rocking_spot) /\
  0 <= _rp_weight (default_env rocking_spot) /\
  0 <= _rate_weight (default_env rocking_spot) /\
  0 <= _time_step (default_env rocking_spot) /\
  exists r self',
    _reward sample_euler sample_observation (default_env rocking_spot)
      forward_gait = Some (r, self') /\
    r <= 2 * _distance_weight (default_env rocking_spot)
         + _rotation_weight (default_env rocking_spot).
Proof.
  pose proof (level_spot_well_formed (0.5, 0.25, 0) (0, 0, 0)
                (repeat 0 12%nat) (repeat 0 12%nat) eq_refl) as Hwf.
  assert (H1 : 0 <= _distance_weight (default_env rocking_spot))
    by (cbn; lra).
  assert (H2 : 0 <= _rotation_weight (default_env rocking_spot))
    by (cbn; lra).
  assert (H3 : 0 <= _energy_weight (default_env rocking_spot))
    by (cbn; lra).
  assert (H4 : 0 <= _rp_weight (default_env rocking_spot)) by (cbn; lra).
  assert (H5 : 0 <= _rate_weight (default_env rocking_spot)) by (cbn; lra).
  assert (H6 : 0 <= _time_step (default_env rocking_spot)) by (cbn; lra).
  repeat (split; [assumption|]).
  exact (reward_upper_bound sample_euler sample_observation
           (default_env rocking_spot) forward_gait Hwf H1 H2 H3 H4 H5 H6).
Defined.

Lemma desired_speed_sign_and_magnitude_witness :
  well_formed sample_observation (default_env walking_spot) /\
  exists l,
    _reward_locals sample_euler sample_observation
      (default_env walking_spot) forward_gait = Some l /\
    Rabs (DesiredVelicty l) = Rabs (StepVelocity forward_gait) / 4 /\
    (StepLength forward_gait < 0 ->
     DesiredVelicty l = - (Rabs (StepVelocity forward_gait) / 4)) /\
    (0 < StepLength forward_gait ->
     DesiredVelicty l = Rabs (StepVelocity forward_gait) / 4) /\
    _reward sample_euler sample_observation (default_env walking_spot)
      {| StepLength := StepLength forward_gait;
         LateralFraction := LateralFraction forward_gait;
         YawRate := YawRate forward_gait;
         StepVelocity := - StepVelocity forward_gait |}
    = _reward sample_euler sample_observation (default_env walking_spot)
        forward_gait.
Proof.
  pose proof (level_spot_well_formed (0, 0, 0) (-1, 0, 0)
                (repeat 0 12%nat) (repeat 0 12%nat) eq_refl) as Hwf.
  split; [exact Hwf|].
  exact (desired_speed_sign_and_magnitude sample_euler sample_observation
           (default_env walking_spot) forward_gait Hwf).
Defined.

Lemma tracking_rewards_decrease_with_error_witness :
  well_formed sample_observation (default_env walking_spot) /\
  well_formed sample_observation (default_env resting_spot) /\
  exists l1 l2,
    _reward_locals_f64 sample_euler sample_observation
      (default_env walking_spot) forward_gait = Some l1 /\
    _reward_locals_f64 sample_euler sample_observation
      (default_env resting_spot) forward_gait = Some l2 /\
    (Rabs (fwd_speed l1
           - DesiredVelicty l1 * cos (LateralFraction forward_gait))
     <= Rabs (fwd_speed l2
             - DesiredVelicty l2 * cos (LateralFraction forward_gait)) ->
     forward_tracking l2 <= forward_tracking l1) /\
    (Rabs (lat_speed l1
           - DesiredVelicty l1 * sin (LateralFraction forward_gait))
     <= Rabs (lat_speed l2
             - DesiredVelicty l2 * sin (LateralFraction forward_gait)) ->
     lateral_reward l2 <= lateral_reward l1) /\
    (Rabs (yaw_rate l1 - YawRate forward_gait)
     <= Rabs (yaw_rate l2 - YawRate forward_gait) ->
     rot_reward l2 <= rot_reward l1).
Proof.
  pose proof (level_spot_well_formed (0, 0, 0) (-1, 0, 0)
                (repeat 0 12%nat) (repeat 0 12%nat) eq_refl) as Hwf1.
  pose proof (level_spot_well_formed (0, 0, 0) (0, 0, 0)
                (repeat 0 12%nat) (repeat 0 12%nat) eq_refl) as Hwf2.
  split; [exact Hwf1|]. split; [exact Hwf2|].
  exact (tracking_rewards_decrease_with_error sample_euler
           sample_observation (default_env walking_spot)
           (default_env resting_spot) forward_gait forward_gait Hwf1 Hwf2).
Defined.

Lemma sample_camera_length (self : Env) :
  (11 <= length (sample_camera self))%nat.
Proof. cbn. lia. Qed.

Lemma step_camera_follows_witness :
  _is_render (default_env walking_spot) = true /\
  (11 <= length (sample_camera
                   (paced_env (default_env walking_spot) 0.01)))%nat /\
  exists yaw pitch dist,
    nth_error (sample_camera (paced_env (default_env walking_spot) 0.01)) 8
    = Some yaw /\
    nth_error (sample_camera (paced_env (default_env walking_spot) 0.01)) 9
    = Some pitch /\
    nth_error (sample_camera (paced_env (default_env walking_spot) 0.01)) 10
    = Some dist /\
    fst (step sample_euler sample_camera sample_observation
           sample_transform sample_Step sample_termination
           sample_DrawFootPath (default_env walking_spot)
           (repeat 0 12%nat) forward_gait 0.004 0.01) =
    (let time_to_sleep :=
       control_time_step (default_env walking_spot)
       - (0.004 - _last_frame_time (default_env walking_spot)) in
     if Rlt_dec 0 time_to_sleep then [Sleep time_to_sleep] else [])
    ++ [ResetDebugVisualizerCamera dist yaw pitch
          (GetBasePosition (spot (default_env walking_spot)))].
Proof.
  pose proof (sample_camera_length
                (paced_env (default_env walking_spot) 0.01)) as Hcam.
  split; [reflexivity|]. split; [exact Hcam|].
  exact (step_camera_follows sample_euler sample_camera sample_observation
           sample_transform sample_Step sample_termination
           sample_DrawFootPath (default_env walking_spot)
           (repeat 0 12%nat) forward_gait 0.004 0.01 eq_refl Hcam).
Defined.

Lemma step_bookkeeping_witness :
  draw_foot_path (default_env walking_spot) = false /\
  step sample_euler sample_camera sample_observation sample_transform
    sample_Step sample_termination sample_DrawFootPath
    (default_env walking_spot) (repeat 0 12%nat) forward_gait 0.02 0.02
  = ([ResetDebugVisualizerCamera 1 50 (-35) (0, 0, 0)],
     Some ([0; 0; 0; 0; 0], 3, false, after_one_step)) /\
  _env_step_counter after_one_step
  = S (_env_step_counter (default_env walking_spot)) /\
  _last_base_position after_one_step
  = GetBasePosition (spot (default_env walking_spot)) /\
  _last_base_orientation after_one_step
  = GetBaseOrientation (spot (default_env walking_spot)) /\
  _last_frame_time after_one_step
  = (if _is_render (default_env walking_spot) then 0.02
     else _last_frame_time (default_env walking_spot)) /\
  spot after_one_step
  = sample_Step (spot (default_env walking_spot))
      (sample_transform (paced_env (default_env walking_spot) 0.02)
         (repeat 0 12%nat)) /\
  (exists entry,
      _objectives after_one_step
      = _objectives (default_env walking_spot) ++ [entry] /\
      length entry = 4%nat) /\
  [0; 0; 0; 0; 0] = sample_observation (spot after_one_step) /\
  false = sample_termination
            (set_env_step_counter after_one_step
               (_env_step_counter (default_env walking_spot))).
Proof.
  split; [reflexivity|]. split; [exact step_forward_walk|].
  exact (step_bookkeeping sample_euler sample_camera sample_observation
           sample_transform sample_Step sample_termination
           sample_DrawFootPath (default_env walking_spot) after_one_step
           (repeat 0 12%nat) forward_gait 0.02 0.02 _ _ _ _
           eq_refl step_forward_walk).
Defined.

Lemma step_raises_when_witness :
  ((_is_render (default_env jammed_spot) = true /\
    (length (sample_camera (paced_env (default_env jammed_spot) 0.02%R))
     < 11)%nat) \/
   (length (sample_observation
              (spot (post_physics sample_transform sample_Step
                       (default_env jammed_spot) (repeat 0%R 12) 0.02%R)))
    < 5)%nat \/
   length (GetMotorTorques
             (spot (post_physics sample_transform sample_Step
                      (default_env jammed_spot) (repeat 0 12%nat) 0.02)))
   <> length (GetMotorVelocities
                (spot (post_physics sample_transform sample_Step
                         (default_env jammed_spot) (repeat 0 12%nat) 0.02))))
  /\
  snd (step sample_euler sample_camera sample_observation sample_transform
         sample_Step sample_termination sample_DrawFootPath
         (default_env jammed_spot) (repeat 0 12%nat) forward_gait 0.02 0.02)
  = None.
Proof.
  assert (H : length (GetMotorTorques
                        (spot (post_physics sample_transform sample_Step
                                 (default_env jammed_spot)
                                 (repeat 0 12%nat) 0.02)))
              <> length (GetMotorVelocities
                           (spot (post_physics sample_transform sample_Step
                                    (default_env jammed_spot)
                                    (repeat 0 12%nat) 0.02))))
    by (cbn; lia).
  split; [right; right; exact H|].
  apply (step_raises_when sample_euler sample_camera sample_observation
           sample_transform sample_Step sample_termination
           sample_DrawFootPath).
  right; right; exact H.
Defined.

Lemma two_steps_witness :
  draw_foot_path (default_env walking_spot) = false /\
  step sample_euler sample_camera sample_observation sample_transform
    sample_Step sample_termination sample_DrawFootPath
    (default_env walking_spot) (repeat 0 12%nat) forward_gait 0.02 0.02
  = ([ResetDebugVisualizerCamera 1 50 (-35) (0, 0, 0)],
     Some ([0; 0; 0; 0; 0], 3, false, after_one_step)) /\
  step sample_euler sample_camera sample_observation sample_transform
    sample_Step sample_termination sample_DrawFootPath
    after_one_step (repeat 0 12%nat) forward_gait 0.04 0.04
  = ([ResetDebugVisualizerCamera 1 50 (-35) (0, 0, 0)],
     Some ([0; 0; 0; 0; 0], 3, false, after_two_steps)) /\
  _env_step_counter after_two_steps
  = S (S (_env_step_counter (default_env walking_spot))) /\
  (exists entry1 entry2,
      _objectives after_one_step
      = _objectives (default_env walking_spot) ++ [entry1] /\
      _objectives after_two_steps
      = _objectives (default_env walking_spot) ++ [entry1; entry2]) /\
  _last_base_position after_two_steps
  = GetBasePosition (spot after_one_step) /\
  _last_base_orientation after_two_steps
  = GetBaseOrientation (spot after_one_step).
Proof.
  split; [reflexivity|]. split; [exact step_forward_walk|].
  split; [exact step_forward_walk_again|].
  exact (two_steps sample_euler sample_camera sample_observation
           sample_transform sample_Step sample_termination
           sample_DrawFootPath (default_env walking_spot) after_one_step
           after_two_steps (repeat 0 12%nat) (repeat 0 12%nat)
           forward_gait forward_gait 0.02 0.02 0.04 0.04 _ _ _ _ _ _ _ _
           eq_refl step_forward_walk step_forward_walk_again).
Defined.

(** ** Concrete runs of the binary64 reward *)

Lemma walking_locals_f64 :
  exists l,
    _reward_locals_f64 sample_euler sample_observation
      (default_env walking_spot) forward_gait = Some l /\
    forward_reward l = 2 /\
    rot_reward l = 1 /\
    rp_reward l = 0 /\
    rate_reward l = 0 /\
    shake_reward l = 0 /\
    drift_reward l = 0 /\
    energy_reward l = 0.
Proof.
  destruct (forward_walk_locals sample_euler sample_observation
              (default_env walking_spot) 12)
    as (l & Hl & _ & _ & _ & Hf & Hlat & _ & Hrot & Hrp & Hrate & Hs & Hd
        & Hen);
    try reflexivity.
  - apply sample_euler_level.
  - apply level_spot_observation.
  - exists (rounded l). split.
    + exact (reward_locals_f64_rounded sample_euler sample_observation
               _ _ _ Hl).
    + cbn [rounded forward_reward rot_reward rp_reward rate_reward
           shake_reward drift_reward energy_reward].
      rewrite Hf, Hlat, Hrot, round_1.
      replace (1 + 1) with 2 by lra. rewrite round_2.
      repeat split; try assumption; lra.
Qed.

Lemma shake_and_drift_weights_finite_witness :
  well_formed sample_observation (default_env walking_spot) /\
  exists l r self',
    _reward_locals_f64 sample_euler sample_observation
      (default_env walking_spot) forward_gait = Some l /\
    shake_reward l = 0 /\
    drift_reward l = 0 /\
    _reward_f64 sample_euler sample_observation default_weights
      (default_env walking_spot) forward_gait = Some (r, self') /\
    last (_objectives self') [] =
      [forward_reward l; energy_reward l; 0; 0] /\
    (forall shake drift shake' drift' : R,
        _reward_f64 sample_euler sample_observation
          (set_shake_drift default_weights
             (F64.Finite shake) (F64.Finite drift))
          (default_env walking_spot) forward_gait
        = _reward_f64 sample_euler sample_observation
            (set_shake_drift default_weights
               (F64.Finite shake') (F64.Finite drift'))
            (default_env walking_spot) forward_gait).
Proof.
  pose proof (level_spot_well_formed (0, 0, 0) (-1, 0, 0)
                (repeat 0 12%nat) (repeat 0 12%nat) eq_refl) as Hwf.
  split; [exact Hwf|].
  exact (shake_and_drift_weights_finite sample_euler sample_observation
           default_weights (default_env walking_spot) forward_gait Hwf).
Defined.

(** C9 as the spec states it fails on the code: in the forward-walk scenario
    the reward is 3 with the default weights and nan once [shake_weight] is
    infinite, every other weight and input being the same. *)
Lemma infinite_shake_weight_counterexample :
  exists r self',
    _reward_f64 sample_euler sample_observation default_weights
      (default_env walking_spot) forward_gait
    = Some (F64.Finite r, self') /\
    r = 3 /\
    _reward_f64 sample_euler sample_observation
      (set_shake_drift default_weights
         (F64.Infinite false) (drift_weight default_weights))
      (default_env walking_spot) forward_gait
    = Some (F64.NaN, self').
Proof.
  destruct walking_locals_f64
    as (l & Hl & Hsum & Hrot & Hrp & Hrate & Hs & Hd & Hen).
  unfold _reward_f64. rewrite Hl. cbn [bind].
  cbn [set_shake_drift default_weights distance_weight rotation_weight
       energy_weight shake_weight drift_weight rp_weight rate_weight].
  rewrite Hsum, Hrot, Hrp, Hrate, Hs, Hd, Hen.
  cbn [F64.mul F64.add].
  destruct (Req_EM_T 0 0) as [_ | Hn]; [|now contradiction Hn].
  cbn [F64.mul F64.add].
  do 2 eexists. split; [reflexivity|]. split; [lra | reflexivity].
Qed.


